(** * EnCh: entity checker for low batteries and unavailable entities

    A shallow embedding of [apps/ench/ench.py] (the AppDaemon app [EnCh]):
    the app's configuration step [initialize] and its two scheduled
    callbacks [check_battery] and [check_unavailable].

    The app object and the services of the host it calls into (state store,
    log, service calls, scheduler) are one record [World]; every method is a
    computation in a state-and-exception monad over it.  The values found in
    YAML arguments and in state attributes are Python values [PyVal], with
    Python's own rules for truthiness, comparison, [int()] and [in]. *)

From Stdlib Require Import ZArith Ascii.
From Stdlib Require Import Floats.SpecFloat.
From stdpp Require Import gmap strings list fin_maps sorting pretty.

Set Warnings "-register-all".
Local Open Scope Z_scope.

(** ** Python values *)

(** What YAML (the app arguments) and JSON (state attributes) can hold.
    A float is the IEEE binary64 number it denotes. *)
Inductive PyVal : Type :=
| VNone
| VBool (b : bool)
| VInt (n : Z)
| VFloat (f : spec_float)
| VStr (s : string)
| VList (l : list PyVal)
| VDict (d : gmap string PyVal).

(** The exceptions the modelled code can raise.  [NameError] stands for its
    subclass [UnboundLocalError] too. *)
Inductive Exn : Set :=
| TypeError | ValueError | AttributeError | KeyError | NameError | OverflowError.

Global Instance Exn_eq_dec : EqDecision Exn.
Proof. solve_decision. Defined.

(** The result of a Python expression: a value, or the exception raised. *)
Definition Res (A : Type) : Type := Exn + A.

Global Instance Res_ret : MRet Res := λ A x, inr x.

Global Instance Res_bind : MBind Res := λ A B f r,
  match r with
  | inr x => f x
  | inl e => inl e
  end.

Definition float_is_zero (f : spec_float) : bool :=
  match f with S754_zero _ => true | _ => false end.

(** The integer with sign [s] and magnitude [m]. *)
Definition signed (s : bool) (m : positive) : Z :=
  if s then Z.neg m else Z.pos m.

(** [f <= m] for a float [f] and an int [m]: Python compares the two
    exactly, without rounding [m] to a float. *)
Definition float_le_int (f : spec_float) (m : Z) : bool :=
  match f with
  | S754_nan => false
  | S754_infinity s => s
  | S754_zero _ => 0 <=? m
  | S754_finite s p e =>
      if 0 <=? e then signed s p * 2 ^ e <=? m
      else signed s p <=? m * 2 ^ (- e)
  end.

(** [int(f)]: truncation toward zero. *)
Definition float_int (f : spec_float) : Res Z :=
  match f with
  | S754_nan => inl ValueError
  | S754_infinity _ => inl OverflowError
  | S754_zero _ => inr 0
  | S754_finite s p e =>
      inr (if 0 <=? e then signed s p * 2 ^ e
           else Z.quot (signed s p) (2 ^ (- e)))
  end.

(** Truth value testing, as [if v:], [v and ...] and [bool(v)] do it. *)
Definition py_truthy (v : PyVal) : bool :=
  match v with
  | VNone => false
  | VBool b => b
  | VInt n => negb (n =? 0)
  | VFloat f => negb (float_is_zero f)
  | VStr s => negb (String.eqb s EmptyString)
  | VList l => match l with [] => false | _ => true end
  | VDict d => match map_to_list d with [] => false | _ => true end
  end.

(** [v <= m] with an int on the right.  Numbers compare by value ([bool] is
    a subclass of [int]); anything else raises [TypeError]. *)
Definition py_le_int (v : PyVal) (m : Z) : Res bool :=
  match v with
  | VBool b => inr (Z.b2z b <=? m)
  | VInt n => inr (n <=? m)
  | VFloat f => inr (float_le_int f m)
  | VNone | VStr _ | VList _ | VDict _ => inl TypeError
  end.

Fixpoint string_repeat (n : nat) (s : string) : string :=
  match n with O => EmptyString | S n => s +:+ string_repeat n s end.

Fixpoint list_repeat {A} (n : nat) (l : list A) : list A :=
  match n with O => [] | S n => l ++ list_repeat n l end.

(** [v * k] with an int [k] on the right: numbers multiply, sequences are
    repeated ([Z.to_nat] gives the empty sequence for [k <= 0]). *)
Definition py_mul_int (v : PyVal) (k : Z) : Res PyVal :=
  match v with
  | VBool b => inr (VInt (Z.b2z b * k))
  | VInt n => inr (VInt (n * k))
  | VFloat f => inr (VFloat (SFmul 53 1024 f (binary_normalize 53 1024 k 0 false)))
  | VStr s => inr (VStr (string_repeat (Z.to_nat k) s))
  | VList l => inr (VList (list_repeat (Z.to_nat k) l))
  | VNone | VDict _ => inl TypeError
  end.

Definition is_VStr (k : string) (v : PyVal) : bool :=
  match v with VStr s => String.eqb s k | _ => false end.

(** [k in v] for a string [k]: a key of a dict, an element of a list, a
    substring of a string; other values are not containers. *)
Definition py_in (k : string) (v : PyVal) : Res bool :=
  match v with
  | VDict d => inr (bool_decide (is_Some (d !! k)))
  | VList l => inr (existsb (is_VStr k) l)
  | VStr s => inr (bool_decide (is_Some (String.index 0 k s)))
  | VNone | VBool _ | VInt _ | VFloat _ => inl TypeError
  end.

(** [v.get(k, dflt)]: only a dict has the method. *)
Definition py_get (v : PyVal) (k : string) (dflt : PyVal) : Res PyVal :=
  match v with
  | VDict d => inr (default dflt (d !! k))
  | _ => inl AttributeError
  end.

(** A [str] is held as its UTF-8 bytes.  A byte [10xxxxxx] continues the
    character begun before it. *)
Definition is_continuation (a : ascii) : bool :=
  let n := N_of_ascii a in ((128 <=? n) && (n <? 192))%N.

(** The characters (code points) of a [str], each as a string of its own:
    a character starts at every byte that is not a continuation byte. *)
Fixpoint code_points (s : string) : list string :=
  match s with
  | EmptyString => []
  | String a s =>
      let continued := match s with
                       | String b _ => is_continuation b
                       | EmptyString => false
                       end in
      match code_points s with
      | c :: cs =>
          if continued then String a c :: cs
          else String a EmptyString :: c :: cs
      | [] => [String a EmptyString]
      end
  end.

(** The elements [for e in v] goes through: a [str] yields its characters.
    The order of a dict's keys is the map's own here; the one place that
    iterates a value collects the elements in a set. *)
Definition py_iter (v : PyVal) : Res (list PyVal) :=
  match v with
  | VList l => inr l
  | VStr s => inr (VStr <$> code_points s)
  | VDict d => inr (VStr <$> (map_to_list d).*1)
  | VNone | VBool _ | VInt _ | VFloat _ => inl TypeError
  end.

(** ** The app object and its host *)

(** One entry of the host's state store, as [get_state(entity_id=...,
    attribute="all")] returns it. *)
Record EntityState : Type := {
  state : string;
  attributes : gmap string PyVal;
  last_updated : string
}.

(** [self.cfg["battery"]], once [initialize] has stored it. *)
Record BatteryCfg : Set := {
  bat_interval_min : Z;
  bat_min_level : Z
}.

(** [self.cfg], a dict with fixed keys.  A key that may be absent is an
    [option]; reading it while absent raises [KeyError].  ["notify"] and
    ["show_friendly_name"] are stored first thing by [initialize]. *)
Record Cfg : Type := {
  cfg_notify : PyVal;
  cfg_show_friendly_name : bool;
  cfg_battery : option BatteryCfg;
  cfg_unavailable : option Z;
  cfg_exclude : option (list string);
  cfg_units : option (list (string * string))
}.

(** A line given to [self.adu.log]: the message and its icon. *)
Record LogLine : Set := { log_msg : string; log_icon : string }.

(** A [self.call_service(service, message=...)]. *)
Record ServiceCall : Set := { service : string; message : string }.

(** The two callbacks [run_every] is given. *)
Inductive Callback : Set := CheckBattery | CheckUnavailable.

(** A [self.run_every(callback, start, interval)]: times in seconds. *)
Record Timer : Set := { callback : Callback; start : Z; every : Z }.

(** The scheduler's contract for [run_every]: the [k]-th run of a timer. *)
Definition nth_run (t : Timer) (k : nat) : Z := start t + Z.of_nat k * every t.

(** The library and host functions the app calls and does not define.
    They are total here: the formatting helpers are taken not to raise. *)
Class Host : Type := {
  (** [str.lower] *)
  lower : string → string;
  (** [int(s)] on a string: [None] is [ValueError] *)
  int_of_str : string → option Z;
  (** [str(v)] of a value that is not a string *)
  repr : PyVal → string;
  (** [hass.friendly_name(entity)], read from the state store *)
  friendly_name : gmap string EntityState → string → string;
  (** [hass.split_entity(entity)]: domain and object id *)
  split_entity : string → string * string;
  (** [datetime.fromisoformat(s)] moved to the host's time zone: its date
      as [strftime('%Y-%m-%d')], its time as [strftime('%H:%M:%S')] *)
  local_date_time : string → string * string;
  (** [self.date()] as [strftime('%Y-%m-%d')], at the given clock *)
  date : Z → string;
  (** what [adutils.ADutils(..., show_config=True)] logs for a config *)
  show_config : Cfg → list LogLine
}.

(** The app object ([args], [cfg]) together with what it reaches on the
    host: the state store, the clock, and the three things it can change
    there (log, service calls, timers). *)
Record World : Type := {
  args : gmap string PyVal;
  cfg : Cfg;
  states : gmap string EntityState;
  now : Z;
  log : list LogLine;
  calls : list ServiceCall;
  timers : list Timer
}.

(** ** The monad of methods: state and exceptions *)

Definition M (A : Type) : Type := World → World * Res A.

Global Instance M_ret : MRet M := λ A x w, (w, inr x).

Global Instance M_bind : MBind M := λ A B f m w,
  match m w with
  | (w', inr x) => f x w'
  | (w', inl e) => (w', inl e)
  end.

Definition raise {A} (e : Exn) : M A := λ w, (w, inl e).

(** A pure Python expression inside a method. *)
Definition lift {A} (r : Res A) : M A := λ w, (w, r).

Definition get_world : M World := λ w, (w, inr w).

Definition set_cfg (c : Cfg) : M unit := λ w,
  ({| args := args w; cfg := c; states := states w; now := now w;
      log := log w; calls := calls w; timers := timers w |}, inr ()).

(** [self.adu.log(msg, icon)].  The object [self.adu] exists from line
    113 on, where [adu_init] stands for its creation: [initialize] logs only
    after that line, and a check is modelled as it runs on an app that got
    there, which is every app whose [cfg] has its exclude list (line 105). *)
Definition adu_log (msg icon : string) : M unit := λ w,
  ({| args := args w; cfg := cfg w; states := states w; now := now w;
      log := log w ++ [{| log_msg := msg; log_icon := icon |}];
      calls := calls w; timers := timers w |}, inr ()).

(** [self.call_service(service, message=msg)] *)
Definition call_service (svc msg : string) : M unit := λ w,
  ({| args := args w; cfg := cfg w; states := states w; now := now w;
      log := log w;
      calls := calls w ++ [{| service := svc; message := msg |}];
      timers := timers w |}, inr ()).

(** [self.run_every(cb, start, interval)] *)
Definition run_every (cb : Callback) (t0 interval : Z) : M unit := λ w,
  ({| args := args w; cfg := cfg w; states := states w; now := now w;
      log := log w; calls := calls w;
      timers := timers w ++ [{| callback := cb; start := t0; every := interval |}] |},
   inr ()).

(** [self.cfg[key]] for a key that may be absent. *)
Definition cfg_key {A} (field : Cfg → option A) : M A := λ w,
  match field (cfg w) with
  | Some x => (w, inr x)
  | None => (w, inl KeyError)
  end.

(** ** Constants *)

Definition APP_NAME : string := "EnCh".
Definition APP_ICON : string := "👩‍⚕️".
Definition BATTERY_MIN_LEVEL : Z := 20.
Definition INTERVAL_BATTERY_MIN : Z := 180.
Definition INTERVAL_UNAVAILABLE_MIN : Z := 60.
Definition EXCLUDE : list string :=
  ["binary_sensor.updater"; "persistent_notification.config_entry_discovery"].
Definition BAD_STATES : list string := ["unavailable"; "unknown"].
Definition ICONS : gmap string string :=
  list_to_map [("battery", "🔋"); ("unavailable", "⁉️ "); ("unknown", "❓")].

(** [ICONS[key]] *)
Definition icon_of (key : string) : Res string :=
  match ICONS !! key with Some i => inr i | None => inl KeyError end.

(** Python's [sorted] on strings: ascending by code point, which on UTF-8
    byte strings is the bytewise order [String.le]. *)
Definition sorted (l : list string) : list string := merge_sort String.le l.

(** [sep.join(l)] *)
Fixpoint join (sep : string) (l : list string) : string :=
  match l with
  | [] => EmptyString
  | [x] => x
  | x :: l => x +:+ sep +:+ join sep l
  end.

(** [s.replace(".", "/")] *)
Fixpoint replace_dot (s : string) : string :=
  match s with
  | EmptyString => EmptyString
  | String a s => String (if Ascii.eqb a "."%char then "/"%char else a) (replace_dot s)
  end.

(** [str(v)] *)
Definition py_str `{Host} (v : PyVal) : string :=
  match v with VStr s => s | _ => repr v end.

(** [int(v)] *)
Definition py_int `{Host} (v : PyVal) : Res Z :=
  match v with
  | VBool b => inr (Z.b2z b)
  | VInt n => inr n
  | VFloat f => float_int f
  | VStr s => match int_of_str s with Some n => inr n | None => inl ValueError end
  | VNone | VList _ | VDict _ => inl TypeError
  end.

(** ** The methods of [EnCh] *)

Section EnCh.
Context `{Host}.

(** [hl]: the text between the escape sequences for bold and reset. *)
Definition hl (text : string) : string :=
  String "027"%char "[1m" +:+ text +:+ String "027"%char "[0m".

(** [self.get_state()]: every entity's state, keyed by entity id. *)
Definition get_state : M (gmap string EntityState) := λ w, (w, inr (states w)).

(** [self.get_state(entity_id=entity, attribute="all")]: the entity's state
    dict, or Python's [None] for an id the store does not have. *)
Definition get_state_all (entity : string) : M (option EntityState) :=
  λ w, (w, inr (states w !! entity)).

(** [d[key]] on a state dict, for the keys that hold a string. *)
Definition state_item (d : option EntityState) (key : string) : Res string :=
  match d with
  | None => inl TypeError
  | Some st =>
      if String.eqb key "last_updated" then inr (last_updated st)
      else if String.eqb key "state" then inr (state st)
      else inl KeyError
  end.

Definition _to_localtime (entity attribute : string) : M (string * string) :=
  attributes ← get_state_all entity;
  time_utc ← lift (state_item attributes attribute);
  mret (local_date_time time_utc).

Definition last_update (entity : string) : M string :=
  '(lu_date, lu_time) ← _to_localtime entity "last_updated";
  w ← get_world;
  let last_updated := lu_time in
  mret (if bool_decide (lu_date ≠ date (now w))
        then last_updated +:+ " (" +:+ lu_date +:+ ")"
        else last_updated).

Definition _highlight_entity (entity : string) : M string :=
  let '(domain, entity) := split_entity entity in
  mret (domain +:+ "." +:+ hl entity).

Definition _name (entity : string) : M string :=
  w ← get_world;
  if cfg_show_friendly_name (cfg w)
  then mret (friendly_name (states w) entity)
  else _highlight_entity entity.

Definition _print_result (check : string) (entities : list string) (reason : string)
  : M unit :=
  let entites_found := length entities in
  if bool_decide (0 < entites_found)%nat
  then adu_log (hl (pretty entites_found +:+ " entities") +:+ " with "
                +:+ hl reason +:+ "!") APP_ICON
  else adu_log ("no entities with " +:+ reason +:+ " found") APP_ICON.

(** [filter(lambda x: x.lower() not in self.cfg["exclude"], ...)].  The
    filter is lazy: [self.cfg["exclude"]] is read once per id, when [sorted]
    consumes it. *)
Fixpoint filter_not_excluded (ids : list string) : M (list string) :=
  match ids with
  | [] => mret []
  | x :: ids =>
      exclude ← cfg_key cfg_exclude;
      rest ← filter_not_excluded ids;
      mret (if bool_decide (lower x ∈ exclude) then rest else x :: rest)
  end.

(** The ids [for entity in sorted(entities)] goes through. *)
Definition sorted_entities : M (list string) :=
  all ← get_state;
  entities ← filter_not_excluded (map_to_list all).*1;
  mret (sorted entities).

(** The text of the per-entity log lines and of the notifications. *)
Definition battery_line (name : string) (level : Z) (last : string) : string :=
  name +:+ " has low " +:+ hl ("battery → " +:+ hl (pretty level))
  +:+ "% | last update: " +:+ last.

Definition unavailable_line (name state last : string) : string :=
  name +:+ " is " +:+ hl state +:+ " | last update: " +:+ last.

Definition battery_message (icon : string) (results : list string) : string :=
  icon +:+ " Battery low (" +:+ pretty (length results) +:+ "): "
  +:+ join ", " results.

Definition unavailable_message (results : list string) : string :=
  APP_ICON +:+ " Unavailable entities (" +:+ pretty (length results) +:+ "): "
  +:+ join ", " results.

(** *** [check_battery] *)

(** One turn of the loop of [check_battery] (lines 141-154).  The state
    store's lookup does not raise, so the handler of [TypeError] around it
    is never entered; a [None] fails at [attrs["attributes"]]. *)
Definition battery_body (entity : string) (results : list string)
  : M (list string) :=
  attrs ← get_state_all entity;
  attributes ← match attrs with
               | Some st => mret (attributes st)
               | None => raise TypeError
               end;
  let battery_level := default VNone (attributes !! "battery_level") in
  low ← (if py_truthy battery_level
         then bat ← cfg_key cfg_battery;
              lift (py_le_int battery_level (bat_min_level bat))
         else mret false);
  if low : bool then
    let results := results ++ [entity] in
    name ← _name entity;
    level ← lift (py_int battery_level);
    last ← last_update entity;
    icon ← lift (icon_of "battery");
    adu_log (battery_line name level last) icon;;
    mret results
  else mret results.

Fixpoint battery_loop (entities results : list string) : M (list string) :=
  match entities with
  | [] => mret results
  | entity :: entities =>
      results ← battery_body entity results;
      battery_loop entities results
  end.

(** Lines 132-154: the value of [results] when the loop is over. *)
Definition battery_scan : M (list string) :=
  adu_log "Checking entities for low battery levels..." APP_ICON;;
  entities ← sorted_entities;
  battery_loop entities [].

Definition check_battery : M unit :=
  results ← battery_scan;
  w ← get_world;
  (if py_truthy (cfg_notify (cfg w)) && bool_decide (results ≠ [])
   then icon ← lift (icon_of "battery");
        call_service (replace_dot (py_str (cfg_notify (cfg w))))
                     (battery_message icon results)
   else mret ());;
  _print_result "battery" results "low battery levels".

(** *** [check_unavailable] *)

(** One turn of the loop of [check_unavailable] (lines 178-190); a [None]
    from the store fails at [attributes.get]. *)
Definition unavailable_body (entity : string) (results : list string)
  : M (list string) :=
  attributes ← get_state_all entity;
  state ← match attributes with
          | Some st => mret (state st)
          | None => raise AttributeError
          end;
  if bool_decide (state ∈ BAD_STATES) && bool_decide (entity ∉ results) then
    let results := results ++ [entity] in
    name ← _name entity;
    last ← last_update entity;
    icon ← lift (icon_of state);
    adu_log (unavailable_line name state last) icon;;
    mret results
  else mret results.

Fixpoint unavailable_loop (entities results : list string) : M (list string) :=
  match entities with
  | [] => mret results
  | entity :: entities =>
      results ← unavailable_body entity results;
      unavailable_loop entities results
  end.

(** Lines 168-190: the value of [results] when the loop is over. *)
Definition unavailable_scan : M (list string) :=
  adu_log "Checking entities for unavailable/unknown state..." APP_ICON;;
  entities ← sorted_entities;
  unavailable_loop entities [].

Definition check_unavailable : M unit :=
  results ← unavailable_scan;
  w ← get_world;
  (if py_truthy (cfg_notify (cfg w)) && bool_decide (results ≠ [])
   then call_service (replace_dot (py_str (cfg_notify (cfg w))))
                     (unavailable_message results)
   else mret ());;
  _print_result "unavailable" results "unavailable/unknown state".

(** *** [initialize] *)

(** Lines 52-54: a fresh [cfg] with its first two keys. *)
Definition cfg_init (a : gmap string PyVal) : Cfg :=
  {| cfg_notify := default VNone (a !! "notify");
     cfg_show_friendly_name := py_truthy (default (VBool true) (a !! "show_friendly_name"));
     cfg_battery := None; cfg_unavailable := None;
     cfg_exclude := None; cfg_units := None |}.

Definition with_battery (b : BatteryCfg) (c : Cfg) : Cfg :=
  {| cfg_notify := cfg_notify c; cfg_show_friendly_name := cfg_show_friendly_name c;
     cfg_battery := Some b; cfg_unavailable := cfg_unavailable c;
     cfg_exclude := cfg_exclude c; cfg_units := cfg_units c |}.

Definition with_unavailable (n : Z) (c : Cfg) : Cfg :=
  {| cfg_notify := cfg_notify c; cfg_show_friendly_name := cfg_show_friendly_name c;
     cfg_battery := cfg_battery c; cfg_unavailable := Some n;
     cfg_exclude := cfg_exclude c; cfg_units := cfg_units c |}.

Definition with_exclude (l : list string) (c : Cfg) : Cfg :=
  {| cfg_notify := cfg_notify c; cfg_show_friendly_name := cfg_show_friendly_name c;
     cfg_battery := cfg_battery c; cfg_unavailable := cfg_unavailable c;
     cfg_exclude := Some l; cfg_units := cfg_units c |}.

(** [self.cfg.setdefault("_units", ...)] *)
Definition setdefault_units (c : Cfg) : Cfg :=
  {| cfg_notify := cfg_notify c; cfg_show_friendly_name := cfg_show_friendly_name c;
     cfg_battery := cfg_battery c; cfg_unavailable := cfg_unavailable c;
     cfg_exclude := cfg_exclude c;
     cfg_units := match cfg_units c with
                  | Some u => Some u
                  | None => Some [("interval", "h"); ("interval_min", "min");
                                  ("min_level", "%")]
                  end |}.

(** An assignment to a key of [self.cfg]. *)
Definition modify_cfg (f : Cfg → Cfg) : M unit := λ w,
  ({| args := args w; cfg := f (cfg w); states := states w; now := now w;
      log := log w; calls := calls w; timers := timers w |}, inr ()).

(** [adutils.ADutils(APP_NAME, self.cfg, ..., show_config=True)] *)
Definition adu_init : M unit := λ w,
  ({| args := args w; cfg := cfg w; states := states w; now := now w;
      log := log w ++ show_config (cfg w);
      calls := calls w; timers := timers w |}, inr ()).

(** Lines 62-67 and again 87-92, which differ in the default only: the
    value of the local [interval_min]. *)
Definition select_interval (section_cfg : PyVal) (dflt : Z) : Res PyVal :=
  has_min ← py_in "interval_min" section_cfg;
  if has_min : bool then py_get section_cfg "interval_min" VNone
  else
    has_old ← py_in "interval" section_cfg;
    if has_old : bool then
      hours ← py_get section_cfg "interval" VNone;
      py_mul_int hours 60
    else mret (VInt dflt).

(** Lines 62-72: the dict stored as [cfg["battery"]]. *)
Definition battery_section (battery_cfg : PyVal) : Res BatteryCfg :=
  interval_min ← select_interval battery_cfg INTERVAL_BATTERY_MIN;
  interval_min ← py_int interval_min;
  min_level ← py_get battery_cfg "min_level" (VInt BATTERY_MIN_LEVEL);
  min_level ← py_int min_level;
  mret {| bat_interval_min := interval_min; bat_min_level := min_level |}.

(** Lines 87-94: the [interval_min] stored in [cfg["unavailable"]]. *)
Definition unavailable_section (states_cfg : PyVal) : Res Z :=
  interval_min ← select_interval states_cfg INTERVAL_UNAVAILABLE_MIN;
  py_int interval_min.

(** [[e.lower() for e in l]]: only a string has the method. *)
Fixpoint lower_all (l : list PyVal) : Res (list string) :=
  match l with
  | [] => inr []
  | VStr s :: l =>
      match lower_all l with
      | inr r => inr (lower s :: r)
      | inl e => inl e
      end
  | _ :: _ => inl AttributeError
  end.

(** Lines 103-105: the built-in exclusions united with the lowercased
    configured ones, as a sorted list. *)
Definition merge_excluded (configured : list string) : list string :=
  let exclude : gset string := list_to_set EXCLUDE in
  let exclude := exclude ∪ list_to_set configured in
  sorted (elements exclude).

(** Line 104: [[e.lower() for e in self.args.get("exclude", set())]]. *)
Definition lowered_excludes (a : gmap string PyVal) : Res (list string) :=
  configured ← match a !! "exclude" with
               | Some v => py_iter v
               | None => inr []
               end;
  lower_all configured.

(** Lines 57-79; returns the local [battery_cfg] when it got bound. *)
Definition init_battery : M (option PyVal) :=
  w ← get_world;
  match args w !! "battery" with
  | None => mret None
  | Some battery_cfg =>
      section ← lift (battery_section battery_cfg);
      modify_cfg (with_battery section);;
      bat ← cfg_key cfg_battery;
      run_every CheckBattery (now w + 120) (bat_interval_min bat * 60);;
      mret (Some battery_cfg)
  end.

(** Lines 82-100. *)
Definition init_unavailable : M unit :=
  w ← get_world;
  if py_truthy (default VNone (args w !! "unavailable")) then
    let states_cfg := default VNone (args w !! "unavailable") in
    interval_min ← lift (unavailable_section states_cfg);
    modify_cfg (with_unavailable interval_min);;
    n ← cfg_key cfg_unavailable;
    run_every CheckUnavailable (now w + 120) (n * 60)
  else mret ().

(** Lines 103-105. *)
Definition init_exclude : M unit :=
  w ← get_world;
  lowered ← lift (lowered_excludes (args w));
  modify_cfg (with_exclude (merge_excluded lowered)).

(** Lines 117-128: the local [battery_cfg] is read whether or not line 59
    bound it. *)
Definition warn_interval (battery_cfg : option PyVal) : M unit :=
  match battery_cfg with
  | None => raise NameError
  | Some battery_cfg =>
      old ← lift (py_in "interval" battery_cfg);
      if old : bool then
        adu_log EmptyString "🧨";;
        adu_log (" Please convert your " +:+ hl "interval"
                 +:+ " (in hours) setting to " +:+ hl "interval_min"
                 +:+ " (in minutes)") "🧨";;
        adu_log (" The " +:+ hl "interval"
                 +:+ " option will be removed in  future release") "🧨";;
        adu_log EmptyString "🧨"
      else mret ()
  end.

Definition initialize : M unit :=
  w ← get_world;
  set_cfg (cfg_init (args w));;
  battery_cfg ← init_battery;
  init_unavailable;;
  init_exclude;;
  modify_cfg setdefault_units;;
  adu_init;;
  warn_interval battery_cfg.

End EnCh.

(** ** A host to run the model on

    Entity ids in ASCII, integers in plain decimal, timestamps in UTC, and
    an [adutils] that prints no configuration. *)

Definition ascii_lower (a : ascii) : ascii :=
  let n := N_of_ascii a in
  if ((65 <=? n) && (n <=? 90))%N then ascii_of_N (n + 32) else a.

Fixpoint ascii_lower_str (s : string) : string :=
  match s with
  | EmptyString => EmptyString
  | String a s => String (ascii_lower a) (ascii_lower_str s)
  end.

Fixpoint digits_value (acc : Z) (s : string) : option Z :=
  match s with
  | EmptyString => Some acc
  | String a s =>
      let n := N_of_ascii a in
      if ((48 <=? n) && (n <=? 57))%N
      then digits_value (10 * acc + Z.of_N (n - 48)) s
      else None
  end.

Definition decimal_int (s : string) : option Z :=
  match s with
  | EmptyString => None
  | String "-" (String a s) => Z.opp <$> digits_value 0 (String a s)
  | _ => digits_value 0 s
  end.

Definition simple_repr (v : PyVal) : string :=
  match v with
  | VNone => "None"
  | VBool true => "True"
  | VBool false => "False"
  | VInt n => pretty n
  | _ => "..."
  end.

Definition attribute_friendly_name (all : gmap string EntityState) (entity : string)
  : string :=
  match all !! entity with
  | Some st =>
      match attributes st !! "friendly_name" with
      | Some (VStr s) => s
      | _ => entity
      end
  | None => "None"
  end.

Fixpoint split_at_dot (s : string) : string * string :=
  match s with
  | EmptyString => (EmptyString, EmptyString)
  | String a s =>
      if Ascii.eqb a "."%char then (EmptyString, s)
      else let '(d, e) := split_at_dot s in (String a d, e)
  end.

Definition utc_date_time (iso : string) : string * string :=
  (String.substring 0 10 iso, String.substring 11 8 iso).

Definition demo_host : Host :=
  {| lower := ascii_lower_str;
     int_of_str := decimal_int;
     repr := simple_repr;
     friendly_name := attribute_friendly_name;
     split_entity := split_at_dot;
     local_date_time := utc_date_time;
     date := λ _, "2021-03-04";
     show_config := λ _, [] |}.

(** A world with the given arguments and state store, before [initialize]. *)
Definition fresh_world (a : gmap string PyVal) (s : gmap string EntityState) : World :=
  {| args := a; cfg := cfg_init a; states := s; now := 1000;
     log := []; calls := []; timers := [] |}.

(** The same world with another [cfg]. *)
Definition world_with_cfg (c : Cfg) (w : World) : World :=
  {| args := args w; cfg := c; states := states w; now := now w;
     log := log w; calls := calls w; timers := timers w |}.

Definition entity (st : string) (attrs : list (string * PyVal)) : EntityState :=
  {| state := st; attributes := list_to_map attrs;
     last_updated := "2021-03-04T05:06:07+00:00" |}.

(** The arguments of the module's docstring. *)
Definition documented_args : gmap string PyVal :=
  list_to_map
    [("exclude", VList [VStr "sensor.out_of_order";
                        VStr "binary_sensor.always_unavailable"]);
     ("battery", VDict (list_to_map [("interval_min", VInt 180); ("min_level", VInt 20)]));
     ("unavailable", VDict (list_to_map [("interval_min", VInt 60)]));
     ("notify", VStr "notify.me")].

(** ** What a run of a check is observed by *)

Section Observations.
Context `{Host}.

(** The world after [L] was logged and the services [C] were called:
    nothing else differs. *)
Definition emit (L : list LogLine) (C : list ServiceCall) (w : World) : World :=
  {| args := args w; cfg := cfg w; states := states w; now := now w;
     log := log w ++ L; calls := calls w ++ C; timers := timers w |}.

(** The entity's lowercased id is in [cfg["exclude"]]. *)
Definition excluded (w : World) (e : string) : Prop :=
  ∃ x, cfg_exclude (cfg w) = Some x ∧ lower e ∈ x.

(** The ids a check goes through, in the order it does. *)
Definition candidates (w : World) : list string :=
  match cfg_exclude (cfg w) with
  | Some x => sorted (filter (λ e, lower e ∉ x) (map_to_list (states w)).*1)
  | None => []
  end.

(** [attrs["attributes"].get("battery_level")] of an entity. *)
Definition battery_level_of (w : World) (e : string) : PyVal :=
  match states w !! e with
  | Some st => default VNone (attributes st !! "battery_level")
  | None => VNone
  end.

(** The condition of line 147, where it evaluates to a truth value. *)
Definition is_low (w : World) (e : string) : bool :=
  let level := battery_level_of w e in
  py_truthy level &&
  match cfg_battery (cfg w) with
  | Some bat =>
      match py_le_int level (bat_min_level bat) with
      | inr b => b
      | inl _ => false
      end
  | None => false
  end.

(** A level the comparison of line 147 and the [int()] of line 151 accept:
    a falsy value, or a number other than the float [-inf]. *)
Definition comparable_level (v : PyVal) : bool :=
  negb (py_truthy v) ||
  match v with
  | VBool _ | VInt _ => true
  | VFloat (S754_infinity true) => false
  | VFloat _ => true
  | VNone | VStr _ | VList _ | VDict _ => false
  end.

(** The condition of line 184 on the entity's state. *)
Definition is_bad (w : World) (e : string) : bool :=
  match states w !! e with
  | Some st => bool_decide (state st ∈ BAD_STATES)
  | None => false
  end.

(** What [_name] and [last_update] return in a world. *)
Definition name_of (w : World) (e : string) : string :=
  if cfg_show_friendly_name (cfg w) then friendly_name (states w) e
  else let '(domain, entity) := split_entity e in domain +:+ "." +:+ hl entity.

Definition last_update_of (w : World) (st : EntityState) : string :=
  let '(lu_date, lu_time) := local_date_time (last_updated st) in
  if bool_decide (lu_date ≠ date (now w))
  then lu_time +:+ " (" +:+ lu_date +:+ ")"
  else lu_time.

(** [l] is the log line of [check_battery] for the entity [e]. *)
Definition battery_logged (w : World) (e : string) (l : LogLine) : Prop :=
  ∃ st level,
    states w !! e = Some st ∧
    py_int (battery_level_of w e) = inr level ∧
    l = {| log_msg := battery_line (name_of w e) level (last_update_of w st);
           log_icon := "🔋" |}.

(** [l] is the log line of [check_unavailable] for the entity [e]. *)
Definition unavailable_logged (w : World) (e : string) (l : LogLine) : Prop :=
  ∃ st icon,
    states w !! e = Some st ∧
    ICONS !! state st = Some icon ∧
    l = {| log_msg := unavailable_line (name_of w e) (state st) (last_update_of w st);
           log_icon := icon |}.

(** The first and the last log line of a run, and its notification. *)
Definition battery_header : LogLine :=
  {| log_msg := "Checking entities for low battery levels..."; log_icon := APP_ICON |}.

Definition unavailable_header : LogLine :=
  {| log_msg := "Checking entities for unavailable/unknown state...";
     log_icon := APP_ICON |}.

Definition summary (reason : string) (results : list string) : LogLine :=
  {| log_msg :=
       if bool_decide (0 < length results)%nat
       then hl (pretty (length results) +:+ " entities") +:+ " with "
            +:+ hl reason +:+ "!"
       else "no entities with " +:+ reason +:+ " found";
     log_icon := APP_ICON |}.

(** The service calls of a run that ends with [results]. *)
Definition notification (w : World) (msg : string) (results : list string)
  : list ServiceCall :=
  if py_truthy (cfg_notify (cfg w)) && bool_decide (results ≠ [])
  then [{| service := replace_dot (py_str (cfg_notify (cfg w))); message := msg |}]
  else [].

(** A run of [check_battery] from [w] reports the entities [reported]:
    after the header the log has their lines, in order, then the summary
    unless the run raised; a notification, if one is sent, lists them; and
    they are the [results] of a scan that completes. *)
Definition battery_reports (w : World) (reported : list string) : Prop :=
  ∃ L tail C,
    (check_battery w).1 = emit (battery_header :: L ++ tail) C w ∧
    Forall2 (battery_logged w) reported L ∧
    (tail = [] ∨ tail = [summary "low battery levels" reported]) ∧
    (C = [] ∨
     C = [{| service := replace_dot (py_str (cfg_notify (cfg w)));
             message := battery_message "🔋" reported |}]) ∧
    (∀ w1 results, battery_scan w = (w1, inr results) → results = reported).

(** The same for a run of [check_unavailable]. *)
Definition unavailable_reports (w : World) (reported : list string) : Prop :=
  ∃ L tail C,
    (check_unavailable w).1 = emit (unavailable_header :: L ++ tail) C w ∧
    Forall2 (unavailable_logged w) reported L ∧
    (tail = [] ∨ tail = [summary "unavailable/unknown state" reported]) ∧
    (C = [] ∨
     C = [{| service := replace_dot (py_str (cfg_notify (cfg w)));
             message := unavailable_message reported |}]) ∧
    (∀ w1 results, unavailable_scan w = (w1, inr results) → results = reported).

(** The battery check read as a plain threshold: the scan completes, and
    an entity of the store is among its results exactly when it is not
    excluded and its [battery_level] is at most [min_level]. *)
Definition threshold_only (w : World) : Prop :=
  ∃ w1 results,
    battery_scan w = (w1, inr results) ∧
    ∀ e bat,
      is_Some (states w !! e) → cfg_battery (cfg w) = Some bat →
      (e ∈ results ↔
       ¬ excluded w e ∧
       py_le_int (battery_level_of w e) (bat_min_level bat) = inr true).

(** From [w] to [w'] nothing happened but log output and at most one call,
    of the configured notify service: the app's arguments and configuration,
    the state store, the clock and the timers are the same. *)
Definition only_logs_and_notifies (w w' : World) : Prop :=
  args w' = args w ∧ cfg w' = cfg w ∧ states w' = states w ∧
  now w' = now w ∧ timers w' = timers w ∧
  (∃ L, log w' = log w ++ L) ∧
  (calls w' = calls w ∨
   ∃ msg, calls w' = calls w ++
            [{| service := replace_dot (py_str (cfg_notify (cfg w)));
                message := msg |}]).

(** The world after [run_every] registered the timer [t]. *)
Definition add_timer (t : Timer) (w : World) : World :=
  {| args := args w; cfg := cfg w; states := states w; now := now w;
     log := log w; calls := calls w; timers := timers w ++ [t] |}.

(** The timer of a check with the interval [interval_min], registered at
    the clock [t0]. *)
Definition check_timer (cb : Callback) (t0 interval_min : Z) : Timer :=
  {| callback := cb; start := t0 + 120; every := interval_min * 60 |}.

(** The interval in minutes as the configuration keys give it: the key
    [interval_min]; else the legacy key [interval], times 60; else the
    default. *)
Definition configured_interval (d : gmap string PyVal) (dflt : Z) : Res PyVal :=
  match d !! "interval_min" with
  | Some minutes => inr minutes
  | None =>
      match d !! "interval" with
      | Some hours => py_mul_int hours 60
      | None => inr (VInt dflt)
      end
  end.

End Observations.

(** ** Worlds to run the checks on *)

(** A state store: a sensor at 0 %, one at 15 % that is unavailable, one
    that the documented configuration excludes, and a light without a
    battery. *)
Definition house : gmap string EntityState :=
  list_to_map
    [("sensor.door", entity "on" [("battery_level", VInt 0)]);
     ("sensor.window", entity "unavailable" [("battery_level", VInt 15);
                                             ("friendly_name", VStr "Window")]);
     ("Sensor.Out_of_order", entity "unknown" [("battery_level", VInt 5)]);
     ("light.a", entity "unknown" [])].

(** A store where one integration reports its level as text. *)
Definition house_with_text : gmap string EntityState :=
  list_to_map
    [("sensor.a", entity "on" [("battery_level", VStr "low")]);
     ("sensor.b", entity "on" [("battery_level", VInt 5)])].

(** The world [initialize] leaves, on the demo host. *)
Definition initialized (a : gmap string PyVal) (s : gmap string EntityState) : World :=
  (initialize (H := demo_host) (fresh_world a s)).1.

Definition home : World := initialized documented_args house.
Definition home_with_text : World := initialized documented_args house_with_text.

(** Arguments without a battery section, and with the legacy key. *)
Definition args_without_battery : gmap string PyVal :=
  delete "battery" documented_args.

Definition args_legacy : gmap string PyVal :=
  list_to_map
    [("battery", VDict (list_to_map [("interval", VInt 3)]));
     ("unavailable", VDict (list_to_map [("interval", VInt 2)]))].

(** ** The checks and [initialize] as functions of what they read *)

Section Outcomes.
Context `{Host}.

(** What one turn of the loop of [check_battery] comes to for an entity:
    an exception, nothing, or the log line of a low level. *)
Definition battery_outcome (w : World) (e : string) : Res (option LogLine) :=
  match states w !! e with
  | None => inl TypeError
  | Some st =>
      let level := battery_level_of w e in
      if py_truthy level then
        match cfg_battery (cfg w) with
        | None => inl KeyError
        | Some bat =>
            low ← py_le_int level (bat_min_level bat);
            if low : bool then
              n ← py_int level;
              mret (Some {| log_msg := battery_line (name_of w e) n
                                                    (last_update_of w st);
                            log_icon := "🔋" |})
            else mret None
        end
      else inr None
  end.

(** The per-entity lines the loop of [check_battery] logs over [es], and
    what it ends with, starting from the results [rs]. *)
Fixpoint battery_trace (w : World) (es rs : list string)
  : list LogLine * Res (list string) :=
  match es with
  | [] => ([], inr rs)
  | e :: es =>
      match battery_outcome w e with
      | inl ex => ([], inl ex)
      | inr None => battery_trace w es rs
      | inr (Some l) =>
          let '(L, r) := battery_trace w es (rs ++ [e]) in (l :: L, r)
      end
  end.

(** The same for one turn and for the loop of [check_unavailable]. *)
Definition unavailable_outcome (w : World) (e : string) (rs : list string)
  : Res (option LogLine) :=
  match states w !! e with
  | None => inl AttributeError
  | Some st =>
      if bool_decide (state st ∈ BAD_STATES) && bool_decide (e ∉ rs) then
        icon ← icon_of (state st);
        mret (Some {| log_msg := unavailable_line (name_of w e) (state st)
                                                  (last_update_of w st);
                      log_icon := icon |})
      else inr None
  end.

Fixpoint unavailable_trace (w : World) (es rs : list string)
  : list LogLine * Res (list string) :=
  match es with
  | [] => ([], inr rs)
  | e :: es =>
      match unavailable_outcome w e rs with
      | inl ex => ([], inl ex)
      | inr None => unavailable_trace w es rs
      | inr (Some l) =>
          let '(L, r) := unavailable_trace w es (rs ++ [e]) in (l :: L, r)
      end
  end.

(** The ids [sorted(entities)] yields, or the [KeyError] of a [cfg] without
    its exclude list on a store that is not empty. *)
Definition entities_outcome (w : World) : Res (list string) :=
  match cfg_exclude (cfg w), (map_to_list (states w)).*1 with
  | None, _ :: _ => inl KeyError
  | _, _ => inr (candidates w)
  end.

(** Everything a run of a check adds: log lines, service calls, and how
    the run ends. *)
Definition run_of (header : LogLine) (trace : list LogLine * Res (list string))
    (entities : Res (list string)) (w : World)
    (msg : list string → string) (reason : string)
  : list LogLine * list ServiceCall * Res unit :=
  match entities with
  | inl ex => ([header], [], inl ex)
  | inr _ =>
      match trace with
      | (L, inl ex) => (header :: L, [], inl ex)
      | (L, inr results) =>
          (header :: L ++ [summary reason results],
           notification w (msg results) results, inr ())
      end
  end.

Definition battery_run (w : World) : list LogLine * list ServiceCall * Res unit :=
  run_of battery_header (battery_trace w (candidates w) []) (entities_outcome w) w
         (battery_message "🔋") "low battery levels".

Definition unavailable_run (w : World)
  : list LogLine * list ServiceCall * Res unit :=
  run_of unavailable_header (unavailable_trace w (candidates w) [])
         (entities_outcome w) w unavailable_message "unavailable/unknown state".

(** The world with another [min_level] in its battery section, if it has
    one. *)
Definition with_min_level (m : Z) (w : World) : World :=
  world_with_cfg
    (match cfg_battery (cfg w) with
     | Some bat => with_battery {| bat_interval_min := bat_interval_min bat;
                                   bat_min_level := m |} (cfg w)
     | None => cfg w
     end) w.

(** The four lines of lines 119-128. *)
Definition interval_warning : list LogLine :=
  [{| log_msg := EmptyString; log_icon := "🧨" |};
   {| log_msg := " Please convert your " +:+ hl "interval"
                 +:+ " (in hours) setting to " +:+ hl "interval_min"
                 +:+ " (in minutes)";
      log_icon := "🧨" |};
   {| log_msg := " The " +:+ hl "interval"
                 +:+ " option will be removed in  future release";
      log_icon := "🧨" |};
   {| log_msg := EmptyString; log_icon := "🧨" |}].

(** The timers a [cfg] stands for: one per section it holds, the battery
    check first, registered at the clock [t0]. *)
Definition timers_of (t0 : Z) (c : Cfg) : list Timer :=
  match cfg_battery c with
  | Some bat => [check_timer CheckBattery t0 (bat_interval_min bat)]
  | None => []
  end ++
  match cfg_unavailable c with
  | Some n => [check_timer CheckUnavailable t0 n]
  | None => []
  end.

(** What the unavailable section comes to: nothing stored for a falsy
    value, an interval for a truthy one, or its exception. *)
Definition unavailable_stored (a : gmap string PyVal) : Res (option Z) :=
  let states_cfg := default VNone (a !! "unavailable") in
  if py_truthy states_cfg then
    match unavailable_section states_cfg with
    | inr n => inr (Some n)
    | inl e => inl e
    end
  else inr None.

End Outcomes.

(** The string has the character. *)
Fixpoint has_char (c : ascii) (s : string) : bool :=
  match s with
  | EmptyString => false
  | String a s => Ascii.eqb a c || has_char c s
  end.


(** More arguments and worlds to run on: an exclude key left empty in
    YAML, an unavailable section given as text, a battery section given as
    a scalar, and an initialized app with an empty state store. *)
Definition args_null_exclude : gmap string PyVal :=
  <["exclude" := VNone]> documented_args.

Definition args_text_unavailable : gmap string PyVal :=
  <["unavailable" := VStr "yes"]> documented_args.

Definition args_scalar_battery : gmap string PyVal :=
  <["battery" := VBool true]> documented_args.

Definition empty_home : World := initialized documented_args ∅.

(** A store with two sensors, at 5 % and at 15 %. *)
Definition house_two_levels : gmap string EntityState :=
  list_to_map
    [("sensor.a", entity "on" [("battery_level", VInt 5)]);
     ("sensor.b", entity "on" [("battery_level", VInt 15)])].

Definition home_two_levels : World := initialized documented_args house_two_levels.

(** * Properties

    ** Runs on the demo host *)

(** Python's rules on values: [0], [None] and the empty string are falsy;
    [True <= 20]; a string does not compare with an int; [int(-1.5)] is
    [-1]; [1.5 * 60] is [90.0]. *)
Example py_truthy_falsy :
  py_truthy (VInt 0) = false ∧ py_truthy VNone = false ∧
  py_truthy (VStr EmptyString) = false ∧ py_truthy (VStr "0") = true.
Proof. done. Qed.

Example py_le_int_cases :
  py_le_int (VBool true) 20 = inr true ∧
  py_le_int (VFloat (S754_finite false 41 (-1))) 20 = inr false ∧
  py_le_int (VStr "15") 20 = inl TypeError.
Proof. done. Qed.

Example float_int_truncates : float_int (S754_finite true 3 (-1)) = inr (-1).
Proof. reflexivity. Qed.

Example py_mul_int_float :
  (v ← py_mul_int (VFloat (S754_finite false 3 (-1))) 60;
   py_int (H := demo_host) v) = inr 90.
Proof. vm_compute. reflexivity. Qed.

(** Iterating a string goes by character, not by byte: an exclude value
    given as the text "aé" stands for the two ids "a" and "é". *)
Example py_iter_characters :
  py_iter (VStr "aé1") = inr [VStr "a"; VStr "é"; VStr "1"] ∧
  py_iter (VStr "🔋") = inr [VStr "🔋"] ∧
  lowered_excludes (H := demo_host) {["exclude" := VStr "aé"]} = inr ["a"; "é"].
Proof. repeat split; vm_compute; reflexivity. Qed.

(** [initialize] with the documented arguments completes and registers
    both checks. *)
Example initialize_documented :
  let r := initialize (H := demo_host) (fresh_world documented_args house) in
  r.2 = inr () ∧
  timers r.1 = [{| callback := CheckBattery; start := 1120; every := 10800 |};
                {| callback := CheckUnavailable; start := 1120; every := 3600 |}] ∧
  cfg_exclude (cfg r.1) =
    Some ["binary_sensor.always_unavailable"; "binary_sensor.updater";
          "persistent_notification.config_entry_discovery"; "sensor.out_of_order"].
Proof. vm_compute. done. Qed.

(** An empty unavailable section is falsy: nothing is registered for it. *)
Example initialize_empty_unavailable :
  timers (initialize (H := demo_host)
            (fresh_world (<["unavailable" := VDict ∅]> documented_args) house)).1
  = [{| callback := CheckBattery; start := 1120; every := 10800 |}].
Proof. vm_compute. reflexivity. Qed.

(** A battery section left empty in YAML is [None]: line 62 raises, and
    nothing is registered. *)
Example initialize_null_battery :
  let r := initialize (H := demo_host)
             (fresh_world (<["battery" := VNone]> documented_args) house) in
  r.2 = inl TypeError ∧ timers r.1 = [].
Proof. vm_compute. done. Qed.

(** The two checks in [home]. *)
Example check_battery_home :
  let r := check_battery (H := demo_host) home in
  r.2 = inr () ∧
  calls r.1 = [{| service := "notify/me";
                  message := "🔋 Battery low (1): sensor.window" |}] ∧
  log_msg <$> log r.1 =
    ["Checking entities for low battery levels...";
     "Window has low " +:+ hl ("battery → " +:+ hl "15")
       +:+ "% | last update: 05:06:07";
     hl "1 entities" +:+ " with " +:+ hl "low battery levels" +:+ "!"].
Proof. vm_compute. done. Qed.

Example check_unavailable_home :
  let r := check_unavailable (H := demo_host) home in
  r.2 = inr () ∧
  message <$> calls r.1 =
    [APP_ICON +:+ " Unavailable entities (2): light.a, sensor.window"].
Proof. vm_compute. done. Qed.

(** A level given as text stops the battery check with [TypeError], after
    the header and before any notification. *)
Example check_battery_text_level :
  let r := check_battery (H := demo_host) home_with_text in
  r.2 = inl TypeError ∧ length (log r.1) = 1%nat ∧ calls r.1 = [].
Proof. vm_compute. done. Qed.

(** ** How the pieces of a run compute *)

Section Lemmas.
Context `{Host}.

(** *** The monad and the host's primitives *)

Lemma bind_run {A B} (m : M A) (f : A → M B) (w : World) :
  (m ≫= f) w = match m w with
               | (w', inr x) => f x w'
               | (w', inl e) => (w', inl e)
               end.
Proof. reflexivity. Qed.

Lemma emit_nil w : emit [] [] w = w.
Proof. destruct w; unfold emit; simpl. by rewrite !app_nil_r. Qed.

Lemma emit_emit L1 C1 L2 C2 w :
  emit L2 C2 (emit L1 C1 w) = emit (L1 ++ L2) (C1 ++ C2) w.
Proof. unfold emit; simpl. by rewrite !app_assoc. Qed.

(** A step that logs nothing and calls nothing leaves the world as it is:
    closes [∃ L ..., step w = (emit L [] w, ...) ∧ ...] with [L := []]. *)
Ltac silent_step :=
  by (exists []; eexists; rewrite emit_nil; split; [reflexivity|])
  || by (exists []; rewrite emit_nil).

Lemma adu_log_run msg icon w :
  adu_log msg icon w = (emit [{| log_msg := msg; log_icon := icon |}] [] w, inr ()).
Proof. unfold adu_log, emit. by rewrite app_nil_r. Qed.

Lemma call_service_run svc msg w :
  call_service svc msg w = (emit [] [{| service := svc; message := msg |}] w, inr ()).
Proof. unfold call_service, emit. by rewrite app_nil_r. Qed.

Lemma icon_of_battery : icon_of "battery" = inr "🔋".
Proof. reflexivity. Qed.

Lemma _name_run e w : _name e w = (w, inr (name_of w e)).
Proof.
  unfold _name, name_of. rewrite bind_run. unfold get_world.
  destruct (cfg_show_friendly_name (cfg w)); [done|].
  unfold _highlight_entity. by destruct (split_entity e).
Qed.

Lemma last_update_run e w st :
  states w !! e = Some st → last_update e w = (w, inr (last_update_of w st)).
Proof.
  intros Hst. unfold last_update, last_update_of, _to_localtime.
  rewrite !bind_run. unfold get_state_all. rewrite Hst. simpl.
  by destruct (local_date_time (last_updated st)).
Qed.

Lemma filter_not_excluded_some ids w x :
  cfg_exclude (cfg w) = Some x →
  filter_not_excluded ids w = (w, inr (filter (λ e, lower e ∉ x) ids)).
Proof.
  intros Hx. induction ids as [|e ids IH]; [done|].
  simpl. rewrite bind_run. unfold cfg_key at 1. rewrite Hx.
  rewrite bind_run, IH. unfold mret, M_ret.
  rewrite filter_cons. by repeat case_decide; try case_bool_decide.
Qed.

Lemma filter_not_excluded_none ids w :
  cfg_exclude (cfg w) = None →
  filter_not_excluded ids w = (w, if ids is [] then inr [] else inl KeyError).
Proof.
  intros Hx. destruct ids as [|e ids]; [done|].
  simpl. rewrite bind_run. unfold cfg_key. by rewrite Hx.
Qed.

Lemma sorted_entities_run w :
  sorted_entities w =
    (w, match cfg_exclude (cfg w), (map_to_list (states w)).*1 with
        | None, _ :: _ => inl KeyError
        | _, _ => inr (candidates w)
        end).
Proof.
  unfold sorted_entities, candidates. rewrite bind_run. unfold get_state.
  rewrite bind_run.
  destruct (cfg_exclude (cfg w)) as [x|] eqn:Hx.
  - by rewrite (filter_not_excluded_some _ _ x).
  - rewrite filter_not_excluded_none by done.
    by destruct ((map_to_list (states w)).*1).
Qed.

Lemma battery_level_of_some w e st :
  states w !! e = Some st →
  battery_level_of w e = default VNone (attributes st !! "battery_level").
Proof. intros Hst. unfold battery_level_of. by rewrite Hst. Qed.

Lemma battery_body_run e rs w st :
  states w !! e = Some st →
  ∃ L r, battery_body e rs w = (emit L [] w, r) ∧
    match r with
    | inr rs' =>
        if is_low w e then rs' = rs ++ [e] ∧ Forall2 (battery_logged w) [e] L
        else rs' = rs ∧ L = []
    | inl _ => L = []
    end.
Proof.
  intros Hst. unfold battery_body, is_low.
  rewrite (battery_level_of_some w e st Hst).
  rewrite bind_run. unfold get_state_all. rewrite Hst. simpl.
  rewrite bind_run. unfold mret at 1, M_ret at 1.
  set (level := default VNone (attributes st !! "battery_level")).
  rewrite bind_run.
  destruct (py_truthy level) eqn:Htruthy; simpl.
  2: { silent_step. }
  rewrite bind_run. unfold cfg_key.
  destruct (cfg_battery (cfg w)) as [bat|].
  2: { silent_step. }
  unfold lift at 1.
  destruct (py_le_int level (bat_min_level bat)) as [ex|[|]].
  - silent_step.
  - rewrite bind_run, _name_run, bind_run. unfold lift at 1.
    destruct (py_int level) as [ex|n] eqn:Hint.
    { silent_step. }
    rewrite bind_run, (last_update_run e w st Hst), bind_run.
    unfold lift at 1. rewrite icon_of_battery, bind_run, adu_log_run.
    eexists _, (inr _). split; [reflexivity|]. split; [done|].
    constructor; [|constructor].
    exists st, n. rewrite (battery_level_of_some w e st Hst). done.
  - silent_step.
Qed.

Lemma battery_loop_run es rs w :
  (∀ e, e ∈ es → is_Some (states w !! e)) →
  ∃ reported L r,
    battery_loop es rs w = (emit L [] w, r) ∧
    Forall2 (battery_logged w) reported L ∧
    reported `sublist_of` filter (λ e, is_low w e = true) es ∧
    (∀ rs', r = inr rs' →
       rs' = rs ++ filter (λ e, is_low w e = true) es ∧
       reported = filter (λ e, is_low w e = true) es).
Proof.
  revert rs w. induction es as [|e es IH]; intros rs w Hes.
  { exists [], [], (inr rs). simpl. rewrite emit_nil.
    split; [done|]. split; [constructor|]. split; [done|].
    intros ? [= <-]. by rewrite app_nil_r. }
  destruct (Hes e) as [st Hst]; [left|].
  destruct (battery_body_run e rs w st Hst) as (L & r & Hrun & Hr).
  simpl. rewrite bind_run, Hrun. destruct r as [ex|rs1].
  { subst L. exists [], [], (inl ex). split; [done|]. split; [constructor|].
    split; [apply sublist_nil_l|done]. }
  destruct (IH rs1 (emit L [] w)) as (rep & L' & r' & Hloop & Hlog & Hsub & Hres).
  { intros e' He'. apply Hes. by right. }
  change (battery_logged (emit L [] w)) with (battery_logged w) in Hlog.
  change (is_low (emit L [] w)) with (is_low w) in Hsub, Hres.
  rewrite Hloop, emit_emit. simpl.
  rewrite filter_cons. destruct (is_low w e) eqn:Hlow.
  - destruct Hr as [-> Hline]. rewrite decide_True by done.
    exists (e :: rep), (L ++ L'), r'. split; [done|]. split.
    { change (e :: rep) with ([e] ++ rep). by apply Forall2_app. }
    split; [by apply sublist_skip|].
    intros rs' Hrs'. destruct (Hres rs' Hrs') as [-> ->].
    by rewrite <- app_assoc.
  - destruct Hr as [-> ->]. rewrite decide_False by done.
    exists rep, L', r'. done.
Qed.


(** *** The ids a check goes through *)

Lemma elem_of_sorted e l : e ∈ sorted l ↔ e ∈ l.
Proof. unfold sorted. by rewrite merge_sort_Permutation. Qed.

Lemma elem_of_candidates w e :
  is_Some (cfg_exclude (cfg w)) ∨ states w = ∅ →
  e ∈ candidates w ↔ is_Some (states w !! e) ∧ ¬ excluded w e.
Proof.
  unfold candidates, excluded. intros Hcfg.
  destruct (cfg_exclude (cfg w)) as [x|] eqn:Hx.
  - rewrite elem_of_sorted, list_elem_of_filter.
    rewrite list_elem_of_fmap. split.
    + intros [Hnot ([k st] & -> & Hin)]. apply elem_of_map_to_list in Hin.
      split; [by exists st|]. intros (x' & [= <-] & ?). done.
    + intros [[st Hst] Hnot]. split.
      * intros Hin. apply Hnot. by exists x.
      * exists (e, st). split; [done|]. by apply elem_of_map_to_list.
  - destruct Hcfg as [[? [=]]|Hempty]. rewrite Hempty, lookup_empty.
    split; [by intros ?%elem_of_nil|]. by intros [[? [=]] _].
Qed.

Lemma NoDup_candidates w : NoDup (candidates w).
Proof.
  unfold candidates, sorted. destruct (cfg_exclude (cfg w)); [|constructor].
  rewrite merge_sort_Permutation. apply NoDup_filter, NoDup_fst_map_to_list.
Qed.

Lemma StronglySorted_candidates w : StronglySorted String.le (candidates w).
Proof.
  unfold candidates, sorted. destruct (cfg_exclude (cfg w)); [|constructor].
  apply StronglySorted_merge_sort; apply _.
Qed.

Lemma StronglySorted_sublist {A} (R : relation A) (l k : list A) :
  l `sublist_of` k → StronglySorted R k → StronglySorted R l.
Proof.
  induction 1 as [|x l k Hsub IH|x l k Hsub IH]; intros Hk; [done|..].
  - apply StronglySorted_inv in Hk as [Hk Hx]. constructor; [by apply IH|].
    rewrite Forall_forall in Hx |- *. intros y Hy. apply Hx.
    by apply (sublist_subseteq _ _ Hsub).
  - apply StronglySorted_inv in Hk as [Hk _]. by apply IH.
Qed.

(** A run of the scan up to the loop's end or to the exception. *)
Lemma battery_scan_run w :
  ∃ reported L r,
    battery_scan w = (emit (battery_header :: L) [] w, r) ∧
    Forall2 (battery_logged w) reported L ∧
    reported `sublist_of` filter (λ e, is_low w e = true) (candidates w) ∧
    (∀ results, r = inr results →
       results = filter (λ e, is_low w e = true) (candidates w) ∧
       reported = results ∧
       (is_Some (cfg_exclude (cfg w)) ∨ states w = ∅)).
Proof.
  unfold battery_scan. rewrite bind_run, adu_log_run, bind_run, sorted_entities_run.
  set (w1 := emit _ _ w).
  assert (Hcases :
    (cfg_exclude (cfg w) = None ∧ (map_to_list (states w)).*1 ≠ []) ∨
    ((is_Some (cfg_exclude (cfg w)) ∨ states w = ∅) ∧
     match cfg_exclude (cfg w1), (map_to_list (states w1)).*1 with
     | None, _ :: _ => inl KeyError
     | _, _ => inr (candidates w1)
     end = inr (candidates w))).
  { change (cfg w1) with (cfg w). change (states w1) with (states w).
    change (candidates w1) with (candidates w).
    destruct (cfg_exclude (cfg w)) as [x|]; [right; split; [left; eauto|done]|].
    destruct (map_to_list (states w)) as [|[k v] l] eqn:Hl.
    - right. split; [right; by apply map_to_list_empty_iff|done].
    - by left. }
  destruct Hcases as [[Hnone Hkeys]|[Hcfg ->]].
  - change (cfg w1) with (cfg w). change (states w1) with (states w).
    rewrite Hnone. destruct ((map_to_list (states w)).*1); [done|].
    exists [], [], (inl KeyError). split; [done|]. split; [constructor|].
    split; [apply sublist_nil_l|done].
  - destruct (battery_loop_run (candidates w) [] w1)
      as (rep & L & r & Hloop & Hlog & Hsub & Hres).
    { intros e He. by apply (elem_of_candidates w e) in He as [? _]. }
    exists rep, L, r. rewrite Hloop. unfold w1. rewrite emit_emit.
    split; [done|]. split; [done|]. split; [done|].
    intros results Hr. destruct (Hres results Hr) as [-> ->]. done.
Qed.

Lemma _print_result_run check results reason w :
  _print_result check results reason w = (emit [summary reason results] [] w, inr ()).
Proof.
  unfold _print_result, summary. case_bool_decide; by rewrite adu_log_run.
Qed.

Lemma check_battery_run w w1 r :
  battery_scan w = (w1, r) →
  check_battery w =
    match r with
    | inr results =>
        (emit [summary "low battery levels" results]
              (notification w1 (battery_message "🔋" results) results) w1,
         inr ())
    | inl e => (w1, inl e)
    end.
Proof.
  intros Hscan. unfold check_battery. rewrite bind_run, Hscan.
  destruct r as [e|results]; [done|].
  rewrite bind_run. unfold get_world. rewrite bind_run. unfold notification.
  destruct (py_truthy (cfg_notify (cfg w1)) && bool_decide (results ≠ [])).
  - rewrite bind_run. unfold lift. rewrite icon_of_battery, call_service_run.
    by rewrite _print_result_run, emit_emit.
  - unfold mret at 1, M_ret at 1. by rewrite _print_result_run.
Qed.

(** *** [check_unavailable] *)

Lemma bad_state_icon s : s ∈ BAD_STATES → ∃ icon, ICONS !! s = Some icon.
Proof.
  unfold BAD_STATES. intros Hs.
  apply elem_of_cons in Hs as [->|Hs]; [by eexists|].
  apply elem_of_cons in Hs as [->|Hs]; [by eexists|].
  by apply elem_of_nil in Hs.
Qed.

Lemma unavailable_body_run e rs w st :
  states w !! e = Some st → e ∉ rs →
  ∃ L, unavailable_body e rs w =
         (emit L [] w, inr (if is_bad w e then rs ++ [e] else rs)) ∧
       if is_bad w e then Forall2 (unavailable_logged w) [e] L else L = [].
Proof.
  intros Hst Hnew. unfold unavailable_body, is_bad.
  rewrite bind_run. unfold get_state_all. rewrite Hst. simpl.
  rewrite bind_run. unfold mret at 1, M_ret at 1.
  rewrite (bool_decide_eq_true_2 (e ∉ rs)) by done. rewrite andb_true_r.
  case_bool_decide as Hbad.
  - destruct (bad_state_icon _ Hbad) as [icon Hicon].
    rewrite bind_run, _name_run, bind_run, (last_update_run e w st Hst), bind_run.
    unfold lift, icon_of. rewrite Hicon, bind_run, adu_log_run.
    eexists. split; [reflexivity|]. constructor; [|constructor].
    by exists st, icon.
  - silent_step.
Qed.

Lemma unavailable_loop_run es rs w :
  (∀ e, e ∈ es → is_Some (states w !! e)) →
  NoDup es → (∀ e, e ∈ es → e ∉ rs) →
  ∃ L, unavailable_loop es rs w =
         (emit L [] w, inr (rs ++ filter (λ e, is_bad w e = true) es)) ∧
       Forall2 (unavailable_logged w) (filter (λ e, is_bad w e = true) es) L.
Proof.
  revert rs w. induction es as [|e es IH]; intros rs w Hes Hnodup Hnew.
  { exists []. simpl. rewrite emit_nil, app_nil_r. split; [done|constructor]. }
  destruct (Hes e) as [st Hst]; [left|].
  apply NoDup_cons in Hnodup as [He Hnodup].
  destruct (unavailable_body_run e rs w st Hst) as (L & Hrun & HL).
  { apply Hnew. left. }
  simpl. rewrite bind_run, Hrun.
  destruct (IH (if is_bad w e then rs ++ [e] else rs) (emit L [] w))
    as (L' & Hloop & Hlog); [| done |..].
  { intros e' He'. apply Hes. by right. }
  { intros e' He'. assert (e' ∉ rs) by (apply Hnew; by right).
    destruct (is_bad w e); [|done].
    rewrite elem_of_app, list_elem_of_singleton. intros [?| ->]; done. }
  change (unavailable_logged (emit L [] w)) with (unavailable_logged w) in Hlog.
  change (is_bad (emit L [] w)) with (is_bad w) in Hloop, Hlog.
  rewrite Hloop, emit_emit. simpl. rewrite filter_cons.
  destruct (is_bad w e) eqn:Hbad.
  - rewrite decide_True by done. exists (L ++ L'). rewrite <- app_assoc.
    split; [done|]. change (e :: ?l) with ([e] ++ l). by apply Forall2_app.
  - rewrite decide_False by done. subst L. by exists L'.
Qed.

Lemma unavailable_scan_run w :
  (∃ L, unavailable_scan w =
          (emit (unavailable_header :: L) [] w,
           inr (filter (λ e, is_bad w e = true) (candidates w))) ∧
        Forall2 (unavailable_logged w)
                (filter (λ e, is_bad w e = true) (candidates w)) L ∧
        (is_Some (cfg_exclude (cfg w)) ∨ states w = ∅)) ∨
  (unavailable_scan w = (emit [unavailable_header] [] w, inl KeyError) ∧
   cfg_exclude (cfg w) = None ∧ states w ≠ ∅).
Proof.
  unfold unavailable_scan.
  rewrite bind_run, adu_log_run, bind_run, sorted_entities_run.
  set (w1 := emit _ _ w).
  change (cfg w1) with (cfg w). change (states w1) with (states w).
  change (candidates w1) with (candidates w).
  assert (Hloop : is_Some (cfg_exclude (cfg w)) ∨ states w = ∅ →
    ∃ L, unavailable_loop (candidates w) [] w1 =
           (emit (unavailable_header :: L) [] w,
            inr (filter (λ e, is_bad w e = true) (candidates w))) ∧
         Forall2 (unavailable_logged w)
                 (filter (λ e, is_bad w e = true) (candidates w)) L).
  { intros Hcfg. destruct (unavailable_loop_run (candidates w) [] w1)
      as (L & Hloop & Hlog).
    - intros e He. by apply (elem_of_candidates w e) in He as [? _].
    - apply NoDup_candidates.
    - intros e _. apply not_elem_of_nil.
    - exists L. rewrite Hloop. unfold w1. by rewrite emit_emit. }
  destruct (cfg_exclude (cfg w)) as [x|] eqn:Hx.
  { left. destruct Hloop as (L & ? & ?); [left; eauto|]. exists L. eauto. }
  destruct (map_to_list (states w)) as [|[k v] l] eqn:Hl.
  - apply map_to_list_empty_iff in Hl. left.
    destruct Hloop as (L & ? & ?); [by right|]. exists L. eauto.
  - right. split; [done|]. split; [done|]. intros Hempty.
    rewrite Hempty, map_to_list_empty in Hl. done.
Qed.

Lemma check_unavailable_run w w1 r :
  unavailable_scan w = (w1, r) →
  check_unavailable w =
    match r with
    | inr results =>
        (emit [summary "unavailable/unknown state" results]
              (notification w1 (unavailable_message results) results) w1,
         inr ())
    | inl e => (w1, inl e)
    end.
Proof.
  intros Hscan. unfold check_unavailable. rewrite bind_run, Hscan.
  destruct r as [e|results]; [done|].
  rewrite bind_run. unfold get_world. rewrite bind_run. unfold notification.
  destruct (py_truthy (cfg_notify (cfg w1)) && bool_decide (results ≠ [])).
  - rewrite call_service_run. by rewrite _print_result_run, emit_emit.
  - unfold mret at 1, M_ret at 1. by rewrite _print_result_run.
Qed.

(** *** [initialize] *)

Lemma res_bind_run {A B} (r : Res A) (f : A → Res B) :
  r ≫= f = match r with inr x => f x | inl e => inl e end.
Proof. reflexivity. Qed.

Lemma select_interval_dict d dflt :
  select_interval (VDict d) dflt = configured_interval d dflt.
Proof.
  unfold select_interval, configured_interval, py_in, py_get.
  rewrite res_bind_run.
  destruct (d !! "interval_min") as [v|]; [done|]. simpl.
  by destruct (d !! "interval") as [h|].
Qed.

Lemma init_battery_run w :
  init_battery w =
    match args w !! "battery" with
    | None => (w, inr None)
    | Some battery_cfg =>
        match battery_section battery_cfg with
        | inl e => (w, inl e)
        | inr b =>
            (add_timer (check_timer CheckBattery (now w) (bat_interval_min b))
                       (world_with_cfg (with_battery b (cfg w)) w),
             inr (Some battery_cfg))
        end
    end.
Proof.
  unfold init_battery. rewrite bind_run. unfold get_world.
  destruct (args w !! "battery") as [bc|]; [|done].
  rewrite bind_run. unfold lift. destruct (battery_section bc) as [e|b]; done.
Qed.

Lemma init_unavailable_run w :
  init_unavailable w =
    let states_cfg := default VNone (args w !! "unavailable") in
    if py_truthy states_cfg then
      match unavailable_section states_cfg with
      | inl e => (w, inl e)
      | inr n =>
          (add_timer (check_timer CheckUnavailable (now w) n)
                     (world_with_cfg (with_unavailable n (cfg w)) w),
           inr ())
      end
    else (w, inr ()).
Proof.
  unfold init_unavailable. rewrite bind_run. unfold get_world. simpl.
  destruct (py_truthy (default VNone (args w !! "unavailable"))); [|done].
  rewrite bind_run. unfold lift.
  destruct (unavailable_section _) as [e|n]; done.
Qed.

Lemma init_exclude_run w :
  init_exclude w =
    match lowered_excludes (args w) with
    | inl e => (w, inl e)
    | inr l => (world_with_cfg (with_exclude (merge_excluded l) (cfg w)) w, inr ())
    end.
Proof.
  unfold init_exclude. rewrite bind_run. unfold get_world.
  rewrite bind_run. unfold lift. destruct (lowered_excludes _); done.
Qed.
(** *** What a run reports *)

Lemma battery_reports_low w :
  ∃ reported,
    battery_reports w reported ∧
    reported `sublist_of` filter (λ e, is_low w e = true) (candidates w).
Proof.
  destruct (battery_scan_run w) as (rep & L & r & Hscan & Hlog & Hsub & Hres).
  exists rep. split; [|done].
  pose proof (check_battery_run w _ _ Hscan) as Hcheck.
  destruct r as [e|results].
  - exists L, [], []. rewrite Hcheck, app_nil_r. simpl.
    repeat split; [done|by left|by left|]. intros w1 rs. by rewrite Hscan.
  - destruct (Hres results eq_refl) as (_ & -> & _).
    eexists L, [_], _. rewrite Hcheck. simpl. rewrite emit_emit. simpl.
    split; [reflexivity|]. split; [done|]. split; [by right|].
    split.
    + unfold notification. simpl.
      destruct (py_truthy _ && _); [by right|by left].
    + intros w1 rs. rewrite Hscan. by intros [= _ <-].
Qed.

Lemma unavailable_reports_bad w :
  ∃ reported,
    unavailable_reports w reported ∧
    reported `sublist_of` filter (λ e, is_bad w e = true) (candidates w).
Proof.
  destruct (unavailable_scan_run w) as [(L & Hscan & Hlog & _)|(Hscan & _)].
  - eexists. split; [|reflexivity].
    pose proof (check_unavailable_run w _ _ Hscan) as Hcheck.
    eexists L, [_], _. rewrite Hcheck. simpl. rewrite emit_emit. simpl.
    split; [reflexivity|]. split; [done|]. split; [by right|].
    split.
    + unfold notification. simpl.
      destruct (py_truthy _ && _); [by right|by left].
    + intros w1 rs. rewrite Hscan. by intros [= _ <-].
  - exists []. split; [|apply sublist_nil_l].
    pose proof (check_unavailable_run w _ _ Hscan) as Hcheck.
    exists [], [], []. rewrite Hcheck. simpl.
    repeat split; [constructor|by left|by left|]. intros w1 rs. by rewrite Hscan.
Qed.

Lemma excluded_not_candidate w e : excluded w e → e ∉ candidates w.
Proof.
  intros Hex Hin. apply elem_of_candidates in Hin as [_ Hnot]; [done|].
  destruct Hex as (x & Hx & _). left. eauto.
Qed.

Lemma not_in_sublist_filter {A} (P : A → Prop) `{!∀ x, Decision (P x)}
    (l k : list A) (x : A) :
  l `sublist_of` filter P k → x ∉ k ∨ ¬ P x → x ∉ l.
Proof.
  intros Hsub Hx Hin. apply (sublist_subseteq _ _ Hsub) in Hin.
  apply list_elem_of_filter in Hin as [HP Hk]. destruct Hx; done.
Qed.


Lemma is_low_true w e :
  is_low w e = true ↔
  py_truthy (battery_level_of w e) = true ∧
  ∃ bat, cfg_battery (cfg w) = Some bat ∧
         py_le_int (battery_level_of w e) (bat_min_level bat) = inr true.
Proof.
  unfold is_low. rewrite andb_true_iff.
  destruct (cfg_battery (cfg w)) as [bat|].
  - destruct (py_le_int _ _) as [ex|b] eqn:Hle.
    + split; [by intros [_ ?]|]. by intros [_ (? & [= <-] & Hle')]; rewrite Hle in Hle'.
    + split.
      * intros [? ->]. eauto.
      * intros [? (? & [= <-] & Hle')]. rewrite Hle in Hle'. by injection Hle' as ->.
  - split; [by intros [_ ?]|]. by intros [_ (? & ? & _)].
Qed.

(** *** The steps of [initialize] in sequence *)

Lemma modify_cfg_run f w : modify_cfg f w = (world_with_cfg (f (cfg w)) w, inr ()).
Proof. reflexivity. Qed.

Lemma adu_init_run w : adu_init w = (emit (show_config (cfg w)) [] w, inr ()).
Proof. unfold adu_init, emit. by rewrite app_nil_r. Qed.

Lemma warn_interval_run battery_cfg w :
  ∃ L, warn_interval battery_cfg w =
         (emit L [] w,
          match battery_cfg with
          | None => inl NameError
          | Some bc =>
              match py_in "interval" bc with
              | inl e => inl e
              | inr _ => inr ()
              end
          end).
Proof.
  unfold warn_interval. destruct battery_cfg as [bc|].
  2: { silent_step. }
  rewrite bind_run. unfold lift.
  destruct (py_in "interval" bc) as [e|[|]].
  - silent_step.
  - rewrite bind_run, adu_log_run, bind_run, adu_log_run, bind_run, adu_log_run.
    rewrite adu_log_run, !emit_emit. by eexists.
  - silent_step.
Qed.

Lemma initialize_run w :
  ∃ wb rb,
    init_battery (world_with_cfg (cfg_init (args w)) w) = (wb, rb) ∧
    match rb with
    | inl e => initialize w = (wb, inl e)
    | inr battery_cfg =>
        ∃ wu ru,
          init_unavailable wb = (wu, ru) ∧
          match ru with
          | inl e => initialize w = (wu, inl e)
          | inr _ =>
              ∃ we re,
                init_exclude wu = (we, re) ∧
                match re with
                | inl e => initialize w = (we, inl e)
                | inr _ =>
                    ∃ L,
                      initialize w =
                        (emit L [] (world_with_cfg (setdefault_units (cfg we)) we),
                         match battery_cfg with
                         | None => inl NameError
                         | Some bc =>
                             match py_in "interval" bc with
                             | inl e => inl e
                             | inr _ => inr ()
                             end
                         end)
                end
          end
    end.
Proof.
  unfold initialize. rewrite bind_run. unfold get_world.
  rewrite bind_run. unfold set_cfg.
  change ({| args := args w; cfg := cfg_init (args w); states := states w;
             now := now w; log := log w; calls := calls w; timers := timers w |})
    with (world_with_cfg (cfg_init (args w)) w).
  rewrite bind_run.
  destruct (init_battery _) as [wb [e|bc]]; eexists _, _; (split; [reflexivity|]);
    [done|].
  rewrite bind_run.
  destruct (init_unavailable wb) as [wu [e|[]]]; eexists _, _;
    (split; [reflexivity|]); [done|].
  rewrite bind_run.
  destruct (init_exclude wu) as [we [e|[]]]; eexists _, _;
    (split; [reflexivity|]); [done|].
  rewrite bind_run, modify_cfg_run, bind_run, adu_init_run.
  destruct (warn_interval_run bc (emit (show_config (cfg (world_with_cfg
              (setdefault_units (cfg we)) we))) []
              (world_with_cfg (setdefault_units (cfg we)) we))) as [L ->].
  rewrite emit_emit. by eexists.
Qed.
(** What a step of [initialize] leaves alone. *)
Lemma init_battery_frame w wb rb :
  init_battery w = (wb, rb) →
  args wb = args w ∧ now wb = now w ∧
  cfg_exclude (cfg wb) = cfg_exclude (cfg w) ∧
  ∃ T, timers wb = timers w ++ T.
Proof.
  rewrite init_battery_run. intros Hrun.
  destruct (args w !! "battery") as [bc|].
  - destruct (battery_section bc) as [e|b]; injection Hrun as <- _;
      repeat split; try done; [by exists []; rewrite app_nil_r|by eexists].
  - injection Hrun as <- _. repeat split; try done. exists []. by rewrite app_nil_r.
Qed.

Lemma init_unavailable_frame w wu ru :
  init_unavailable w = (wu, ru) →
  args wu = args w ∧ now wu = now w ∧
  cfg_exclude (cfg wu) = cfg_exclude (cfg w) ∧
  ∃ T, timers wu = timers w ++ T.
Proof.
  rewrite init_unavailable_run. simpl. intros Hrun.
  destruct (py_truthy _).
  - destruct (unavailable_section _) as [e|n]; injection Hrun as <- _;
      repeat split; try done; [by exists []; rewrite app_nil_r|by eexists].
  - injection Hrun as <- _. repeat split; try done. exists []. by rewrite app_nil_r.
Qed.

Lemma init_exclude_frame w we re :
  init_exclude w = (we, re) →
  args we = args w ∧ now we = now w ∧ timers we = timers w.
Proof.
  rewrite init_exclude_run. intros Hrun.
  destruct (lowered_excludes _); by injection Hrun as <- _.
Qed.

Lemma initialize_exclude w w1 r :
  initialize w = (w1, r) →
  cfg_exclude (cfg w1) = None ∨
  ∃ l, lowered_excludes (args w) = inr l ∧
       cfg_exclude (cfg w1) = Some (merge_excluded l).
Proof.
  intros Hinit. destruct (initialize_run w) as (wb & rb & Hb & Hrest).
  apply init_battery_frame in Hb as (Hab & _ & Hxb & _). simpl in Hab, Hxb.
  destruct rb as [e|bc].
  { rewrite Hinit in Hrest. injection Hrest as -> _. by left. }
  destruct Hrest as (wu & ru & Hu & Hrest).
  apply init_unavailable_frame in Hu as (Hau & _ & Hxu & _).
  destruct ru as [e|[]].
  { rewrite Hinit in Hrest. injection Hrest as -> _. left. congruence. }
  destruct Hrest as (we & re & He & Hrest).
  rewrite init_exclude_run in He. rewrite Hau, Hab in He.
  destruct (lowered_excludes (args w)) as [e|l]; injection He as <- <-.
  { rewrite Hinit in Hrest. injection Hrest as -> _. left. congruence. }
  destruct Hrest as (L & Hrest). rewrite Hinit in Hrest. injection Hrest as -> _.
  right. by exists l.
Qed.

Lemma elem_of_merge_excluded l i :
  i ∈ merge_excluded l ↔ i ∈ EXCLUDE ∨ i ∈ l.
Proof.
  unfold merge_excluded. rewrite elem_of_sorted, elem_of_elements, elem_of_union.
  by rewrite !elem_of_list_to_set.
Qed.

Lemma lower_all_strings l : lower_all (VStr <$> l) = inr (lower <$> l).
Proof.
  induction l as [|s l IH]; [done|].
  rewrite !fmap_cons. cbn [lower_all]. by rewrite IH.
Qed.

Lemma initialize_battery_timer w battery_cfg b :
  args w !! "battery" = Some battery_cfg →
  battery_section battery_cfg = inr b →
  check_timer CheckBattery (now w) (bat_interval_min b) ∈ timers (initialize w).1.
Proof.
  intros Hargs Hsection. destruct (initialize_run w) as (wb & rb & Hb & Hrest).
  rewrite init_battery_run in Hb. simpl in Hb. rewrite Hargs, Hsection in Hb.
  injection Hb as <- <-.
  destruct Hrest as (wu & ru & Hu & Hrest).
  apply init_unavailable_frame in Hu as (_ & _ & _ & T & Hu).
  assert (Hin : check_timer CheckBattery (now w) (bat_interval_min b) ∈ timers wu).
  { rewrite Hu. simpl. rewrite !elem_of_app, list_elem_of_singleton. auto. }
  destruct ru as [e|[]]; [by rewrite Hrest|].
  destruct Hrest as (we & re & He & Hrest).
  apply init_exclude_frame in He as (_ & _ & He).
  destruct re as [e|[]]; [rewrite Hrest; simpl; by rewrite He|].
  destruct Hrest as (L & ->). simpl. by rewrite He.
Qed.

Lemma initialize_unavailable_timer w n :
  (∀ battery_cfg, args w !! "battery" = Some battery_cfg →
                  ∃ b, battery_section battery_cfg = inr b) →
  py_truthy (default VNone (args w !! "unavailable")) = true →
  unavailable_section (default VNone (args w !! "unavailable")) = inr n →
  check_timer CheckUnavailable (now w) n ∈ timers (initialize w).1.
Proof.
  intros Hbattery Htruthy Hsection.
  destruct (initialize_run w) as (wb & rb & Hb & Hrest).
  pose proof (init_battery_frame _ _ _ Hb) as (Hab & Hnb & _). simpl in Hab, Hnb.
  rewrite init_battery_run in Hb. simpl in Hb.
  assert (∃ bc, rb = inr bc) as [bc ->].
  { destruct (args w !! "battery") as [bc|] eqn:Hbc.
    - destruct (Hbattery bc eq_refl) as [b Hsec]. rewrite Hsec in Hb.
      injection Hb as _ <-. by eexists.
    - injection Hb as _ <-. by eexists. }
  destruct Hrest as (wu & ru & Hu & Hrest).
  rewrite init_unavailable_run in Hu. simpl in Hu.
  rewrite Hab, Htruthy, Hsection, Hnb in Hu. injection Hu as <- <-.
  destruct Hrest as (we & re & He & Hrest).
  apply init_exclude_frame in He as (_ & _ & He). simpl in He.
  assert (Hin : check_timer CheckUnavailable (now w) n ∈ timers we).
  { rewrite He, elem_of_app, list_elem_of_singleton. auto. }
  destruct re as [e|[]]; [by rewrite Hrest|].
  by destruct Hrest as (L & ->).
Qed.

Lemma battery_section_dict d v n m :
  configured_interval d INTERVAL_BATTERY_MIN = inr v →
  py_int v = inr n →
  py_int (default (VInt BATTERY_MIN_LEVEL) (d !! "min_level")) = inr m →
  battery_section (VDict d) = inr {| bat_interval_min := n; bat_min_level := m |}.
Proof.
  intros Hv Hn Hm. unfold battery_section.
  rewrite select_interval_dict, Hv, res_bind_run, Hn, res_bind_run. simpl.
  by rewrite res_bind_run, Hm.
Qed.

Lemma unavailable_section_dict d v n :
  configured_interval d INTERVAL_UNAVAILABLE_MIN = inr v →
  py_int v = inr n →
  unavailable_section (VDict d) = inr n.
Proof.
  intros Hv Hn. unfold unavailable_section.
  by rewrite select_interval_dict, Hv, res_bind_run.
Qed.

Lemma py_truthy_dict d : d ≠ ∅ → py_truthy (VDict d) = true.
Proof.
  intros Hd. simpl. destruct (map_to_list d) eqn:Hl; [|done].
  by apply map_to_list_empty_iff in Hl.
Qed.

(** *** When a scan completes *)

Lemma comparable_level_accepted v m :
  comparable_level v = true → py_truthy v = true →
  ∃ b, py_le_int v m = inr b ∧ (b = true → ∃ n, py_int v = inr n).
Proof.
  unfold comparable_level. intros Hlevel Htruthy.
  rewrite Htruthy in Hlevel. simpl in Hlevel.
  destruct v as [|b|n|f|s|l|d]; try done; simpl; eexists; (split; [reflexivity|]).
  - by eexists.
  - by eexists.
  - destruct f as [z|[|]|  |s p e]; simpl; try done; by eexists.
Qed.

Lemma battery_body_completes e rs w st :
  states w !! e = Some st →
  is_Some (cfg_battery (cfg w)) →
  comparable_level (battery_level_of w e) = true →
  ∃ L rs', battery_body e rs w = (emit L [] w, inr rs').
Proof.
  intros Hst [bat Hbat] Hlevel.
  destruct (battery_body_run e rs w st Hst) as (L & r & Hrun & Hr).
  destruct r as [ex|rs']; [|by eauto]. exfalso.
  revert Hrun. unfold battery_body.
  rewrite bind_run. unfold get_state_all. rewrite Hst. simpl.
  rewrite bind_run. unfold mret at 1, M_ret at 1.
  rewrite <- (battery_level_of_some w e st Hst).
  rewrite bind_run.
  destruct (py_truthy (battery_level_of w e)) eqn:Htruthy; [|done].
  destruct (comparable_level_accepted _ (bat_min_level bat) Hlevel Htruthy)
    as (low & Hle & Hint).
  rewrite bind_run. unfold cfg_key. rewrite Hbat. unfold lift at 1. rewrite Hle.
  destruct low; [|done]. destruct Hint as [n Hn]; [done|].
  rewrite bind_run, _name_run, bind_run. unfold lift at 1. rewrite Hn.
  rewrite bind_run, (last_update_run e w st Hst), bind_run.
  unfold lift at 1. rewrite icon_of_battery, bind_run, adu_log_run. done.
Qed.

Lemma battery_loop_completes es rs w :
  (∀ e, e ∈ es →
        is_Some (states w !! e) ∧ comparable_level (battery_level_of w e) = true) →
  is_Some (cfg_battery (cfg w)) →
  ∃ L rs', battery_loop es rs w = (emit L [] w, inr rs').
Proof.
  revert rs w. induction es as [|e es IH]; intros rs w Hes Hbat.
  { exists [], rs. simpl. by rewrite emit_nil. }
  destruct (Hes e) as [[st Hst] Hlevel]; [left|].
  destruct (battery_body_completes e rs w st Hst Hbat Hlevel) as (L & rs1 & Hrun).
  simpl. rewrite bind_run, Hrun.
  destruct (IH rs1 (emit L [] w)) as (L' & rs' & Hloop); [|done|].
  { intros e' He'. apply Hes. by right. }
  rewrite Hloop, emit_emit. by eexists _, _.
Qed.

Lemma battery_scan_completes w :
  is_Some (cfg_exclude (cfg w)) →
  is_Some (cfg_battery (cfg w)) →
  Forall (λ e, comparable_level (battery_level_of w e) = true) (candidates w) →
  ∃ w1 results, battery_scan w = (w1, inr results).
Proof.
  intros [x Hx] Hbat Hlevels. unfold battery_scan.
  rewrite bind_run, adu_log_run, bind_run, sorted_entities_run. simpl.
  rewrite Hx.
  destruct (battery_loop_completes
              (candidates (emit [battery_header] [] w)) [] (emit [battery_header] [] w))
    as (L & rs & Hloop); [|done|].
  { intros e He. split.
    - apply (elem_of_candidates w e) in He as [? ?]; [done|left; by exists x].
    - rewrite Forall_forall in Hlevels. by apply Hlevels. }
  unfold battery_header in Hloop. rewrite Hloop. by eexists _, _.
Qed.

(** The results of a scan that completes. *)
Lemma battery_scan_results w w1 results :
  battery_scan w = (w1, inr results) →
  (∀ e, e ∈ results ↔
     is_Some (states w !! e) ∧ ¬ excluded w e ∧
     py_truthy (battery_level_of w e) = true ∧
     ∃ bat, cfg_battery (cfg w) = Some bat ∧
            py_le_int (battery_level_of w e) (bat_min_level bat) = inr true) ∧
  ∃ L, w1 = emit (battery_header :: L) [] w ∧
       Forall2 (battery_logged w) results L.
Proof.
  intros Hscan.
  destruct (battery_scan_run w) as (rep & L & r & Hrun & Hlog & _ & Hres).
  rewrite Hscan in Hrun. injection Hrun as -> <-.
  destruct (Hres results eq_refl) as (Hresults & -> & Hcfg). split.
  - intros e. rewrite Hresults at 1.
    rewrite list_elem_of_filter, (elem_of_candidates w e Hcfg), is_low_true.
    tauto.
  - by exists L.
Qed.

Lemma unavailable_scan_results w w1 results :
  unavailable_scan w = (w1, inr results) →
  (∀ e, e ∈ results ↔
     ¬ excluded w e ∧
     ∃ st, states w !! e = Some st ∧ state st ∈ BAD_STATES) ∧
  ∃ L, w1 = emit (unavailable_header :: L) [] w ∧
       Forall2 (unavailable_logged w) results L.
Proof.
  intros Hscan.
  destruct (unavailable_scan_run w) as [(L & Hrun & Hlog & Hcfg)|(Hrun & _)].
  2: { by rewrite Hscan in Hrun. }
  rewrite Hscan in Hrun. injection Hrun as -> ->. split; [|by exists L].
  intros e. rewrite list_elem_of_filter, (elem_of_candidates w e Hcfg).
  unfold is_bad. split.
  - intros (Hbad & [st Hst] & Hnot). rewrite Hst in Hbad.
    apply bool_decide_eq_true in Hbad. eauto.
  - intros (Hnot & st & Hst & Hbad). rewrite Hst.
    split; [by apply bool_decide_eq_true|eauto].
Qed.

(** What is reported is in ascending order and has no duplicates. *)
Lemma sublist_of_candidates_sorted (P : string → Prop) `{!∀ e, Decision (P e)}
    w (l : list string) :
  l `sublist_of` filter P (candidates w) →
  NoDup l ∧ StronglySorted String.le l.
Proof.
  intros Hsub. split.
  - apply (sublist_NoDup l (filter P (candidates w))); [|done].
    apply NoDup_filter, NoDup_candidates.
  - apply (StronglySorted_sublist _ _ _ Hsub).
    apply (StronglySorted_sublist _ _ _ (sublist_filter P (candidates w))).
    apply StronglySorted_candidates.
Qed.

Lemma unavailable_scan_completes w :
  is_Some (cfg_exclude (cfg w)) →
  ∃ w1 results, unavailable_scan w = (w1, inr results).
Proof.
  intros [x Hx].
  destruct (unavailable_scan_run w) as [(L & Hrun & _)|(_ & Hnone & _)];
    [by eexists _, _|congruence].
Qed.
End Lemmas.

(** ** The claims about the checks and about [initialize] *)

Section Claims.
Context `{Host}.

(** C1, amended.  In every run of the battery check where [cfg] has its
    exclude list and its battery section and each entity gone through (the
    ones not excluded) has a [battery_level] that is falsy or a number (a
    bool, an int or a float) other than the float [-inf], the scan
    completes, and an entity is in its results exactly when it is in the
    state store, not excluded, and its [battery_level] is truthy (present
    and not 0) and at most the configured [min_level]; the entities logged
    as low, after the header, are the results in order. *)
Theorem battery_results_exact w :
  is_Some (cfg_exclude (cfg w)) →
  is_Some (cfg_battery (cfg w)) →
  Forall (λ e, comparable_level (battery_level_of w e) = true) (candidates w) →
  ∃ w1 results L,
    battery_scan w = (w1, inr results) ∧
    (∀ e, e ∈ results ↔
       is_Some (states w !! e) ∧ ¬ excluded w e ∧
       py_truthy (battery_level_of w e) = true ∧
       ∃ bat, cfg_battery (cfg w) = Some bat ∧
              py_le_int (battery_level_of w e) (bat_min_level bat) = inr true) ∧
    w1 = emit (battery_header :: L) [] w ∧
    Forall2 (battery_logged w) results L.
Proof.
  intros Hexclude Hbattery Hlevels.
  destruct (battery_scan_completes w Hexclude Hbattery Hlevels)
    as (w1 & results & Hscan).
  destruct (battery_scan_results w w1 results Hscan) as (Hiff & L & Hw1 & Hlog).
  by exists w1, results, L.
Qed.

(** C2.  In every run of the unavailable check where [cfg] has its
    exclude list, the scan completes, and an entity is in its results
    exactly when it is not excluded and its state is one of the bad states
    "unavailable" and "unknown"; the entities logged, after the header, are
    the results in order. *)
Theorem unavailable_results_exact w :
  is_Some (cfg_exclude (cfg w)) →
  ∃ w1 results L,
    unavailable_scan w = (w1, inr results) ∧
    (∀ e, e ∈ results ↔
       ¬ excluded w e ∧
       ∃ st, states w !! e = Some st ∧ state st ∈ BAD_STATES) ∧
    w1 = emit (unavailable_header :: L) [] w ∧
    Forall2 (unavailable_logged w) results L.
Proof.
  intros Hexclude.
  destruct (unavailable_scan_completes w Hexclude) as (w1 & results & Hscan).
  destruct (unavailable_scan_results w w1 results Hscan) as (Hiff & L & Hw1 & Hlog).
  by exists w1, results, L.
Qed.

(** C3.  In every run of either check, a service call is dispatched if
    and only if a notify target is configured (a truthy [cfg["notify"]])
    and the scan ended with a results list that is not empty; it is one
    call of the notify service, whose message holds the number of flagged
    entities and their ids joined by ", ". *)
Theorem notification_iff_configured_and_flagged w :
  (∃ C, calls (check_battery w).1 = calls w ++ C ∧
        (C ≠ [] ↔
         py_truthy (cfg_notify (cfg w)) = true ∧
         ∃ w1 results, battery_scan w = (w1, inr results) ∧ results ≠ []) ∧
        ∀ w1 results,
          battery_scan w = (w1, inr results) →
          C = [] ∨
          C = [{| service := replace_dot (py_str (cfg_notify (cfg w)));
                  message := "🔋" +:+ " Battery low (" +:+ pretty (length results)
                             +:+ "): " +:+ join ", " results |}]) ∧
  (∃ C, calls (check_unavailable w).1 = calls w ++ C ∧
        (C ≠ [] ↔
         py_truthy (cfg_notify (cfg w)) = true ∧
         ∃ w1 results, unavailable_scan w = (w1, inr results) ∧ results ≠ []) ∧
        ∀ w1 results,
          unavailable_scan w = (w1, inr results) →
          C = [] ∨
          C = [{| service := replace_dot (py_str (cfg_notify (cfg w)));
                  message := APP_ICON +:+ " Unavailable entities ("
                             +:+ pretty (length results) +:+ "): "
                             +:+ join ", " results |}]).
Proof.
  assert (Hnotify : ∀ (scan : M (list string)) w1 r msg,
    scan w = (w1, r) → cfg w1 = cfg w →
    let C := match r with
             | inr results => notification w1 (msg results) results
             | inl _ => []
             end in
    (C ≠ [] ↔
     py_truthy (cfg_notify (cfg w)) = true ∧
     ∃ w1 results, scan w = (w1, inr results) ∧ results ≠ []) ∧
    ∀ w1 results,
      scan w = (w1, inr results) →
      C = [] ∨
      C = [{| service := replace_dot (py_str (cfg_notify (cfg w)));
              message := msg results |}]).
  { intros scan w1 r msg Hscan Hcfg. destruct r as [e|results]; simpl.
    { split; [|by left]. split; [done|].
      intros (_ & ? & ? & Hscan' & _). by rewrite Hscan in Hscan'. }
    unfold notification. rewrite Hcfg.
    destruct (py_truthy (cfg_notify (cfg w))); simpl.
    2: { split; [|by left]. split; [done|]. by intros [? _]. }
    case_bool_decide as Hresults.
    - split.
      + split; [|done]. intros _. split; [done|]. by exists w1, results.
      + intros w1' results'. rewrite Hscan. intros [= _ <-]. by right.
    - split; [|by left]. split; [done|].
      intros (_ & ? & ? & Hscan' & Hne). rewrite Hscan in Hscan'.
      injection Hscan' as _ <-. done. }
  split.
  - destruct (battery_scan_run w) as (? & L & r & Hscan & _).
    eexists. split; [|by apply (Hnotify battery_scan _ r (battery_message "🔋") Hscan)].
    rewrite (check_battery_run w _ _ Hscan).
    destruct r; simpl; by rewrite !app_nil_r.
  - assert (∃ w1 r, unavailable_scan w = (w1, r) ∧
                    cfg w1 = cfg w ∧ calls w1 = calls w)
      as (w1 & r & Hscan & Hcfg & Hcalls).
    { destruct (unavailable_scan_run w) as [(L & Hrun & _)|(Hrun & _)];
        eexists _, _; (split; [exact Hrun|]); simpl; by rewrite app_nil_r. }
    eexists. split; [|by apply (Hnotify unavailable_scan w1 r unavailable_message)].
    rewrite (check_unavailable_run w _ _ Hscan).
    destruct r; simpl; by rewrite ?app_nil_r, Hcalls.
Qed.

(** C4.  After [initialize], [cfg["exclude"]] holds exactly the two
    built-in ids and the lowercased configured ones; and in every run of
    either check under that configuration, an entity whose lowercased id is
    one of them is not among the reported entities: not in the results, not
    in a per-entity log line, not in the notification. *)
Theorem excluded_never_reported w0 w1 r configured :
  initialize w0 = (w1, r) →
  args w0 !! "exclude" = Some (VList (VStr <$> configured)) ∨
  args w0 !! "exclude" = None ∧ configured = [] →
  (∀ x, cfg_exclude (cfg w1) = Some x →
        ∀ i, i ∈ x ↔ i ∈ EXCLUDE ∨ i ∈ lower <$> configured) ∧
  ∀ w e,
    cfg w = cfg w1 →
    lower e ∈ EXCLUDE ∨ lower e ∈ lower <$> configured →
    (∃ reported, battery_reports w reported ∧ e ∉ reported) ∧
    (∃ reported, unavailable_reports w reported ∧ e ∉ reported).
Proof.
  intros Hinit Hargs.
  assert (Hlowered : lowered_excludes (args w0) = inr (lower <$> configured)).
  { unfold lowered_excludes.
    destruct Hargs as [->|[-> ->]]; [|done]. simpl. apply lower_all_strings. }
  assert (Hmerged : ∀ x, cfg_exclude (cfg w1) = Some x →
                         ∀ i, i ∈ x ↔ i ∈ EXCLUDE ∨ i ∈ lower <$> configured).
  { intros x Hx i.
    destruct (initialize_exclude _ _ _ Hinit) as [Hnone|(l & Hl & Hsome)];
      [congruence|].
    rewrite Hlowered in Hl. injection Hl as <-. rewrite Hx in Hsome.
    injection Hsome as ->. apply elem_of_merge_excluded. }
  split; [done|]. intros w e Hcfg He.
  assert (Hcand : e ∉ candidates w).
  { destruct (cfg_exclude (cfg w)) as [x|] eqn:Hx.
    - apply excluded_not_candidate. exists x. split; [done|].
      rewrite Hcfg in Hx. by apply (Hmerged x Hx).
    - unfold candidates. rewrite Hx. apply not_elem_of_nil. }
  split.
  - destruct (battery_reports_low w) as (reported & Hrep & Hsub).
    exists reported. split; [done|].
    eapply not_in_sublist_filter; [done|]. by left.
  - destruct (unavailable_reports_bad w) as (reported & Hrep & Hsub).
    exists reported. split; [done|].
    eapply not_in_sublist_filter; [done|]. by left.
Qed.

(** C5.  [initialize] registers the battery check when the arguments have
    a battery section (a dict whose interval and [min_level] convert with
    [int]), and the unavailable check when they have a non-empty
    unavailable section (and the battery section, if any, did not raise):
    the first run is 120 seconds after the clock of [initialize], every next
    one [interval_min * 60] seconds later, where [interval_min] is the key
    [interval_min], else the key [interval] times 60, else the default
    (180 for the battery check, 60 for the unavailable one). *)
Theorem checks_scheduled w :
  (∀ d v n m,
     args w !! "battery" = Some (VDict d) →
     configured_interval d INTERVAL_BATTERY_MIN = inr v →
     py_int v = inr n →
     py_int (default (VInt BATTERY_MIN_LEVEL) (d !! "min_level")) = inr m →
     ∃ t, t ∈ timers (initialize w).1 ∧
          callback t = CheckBattery ∧
          nth_run t 0 = now w + 120 ∧
          ∀ k, nth_run t (S k) = nth_run t k + n * 60) ∧
  (∀ d v n,
     args w !! "unavailable" = Some (VDict d) → d ≠ ∅ →
     (∀ battery_cfg, args w !! "battery" = Some battery_cfg →
                     ∃ b, battery_section battery_cfg = inr b) →
     configured_interval d INTERVAL_UNAVAILABLE_MIN = inr v →
     py_int v = inr n →
     ∃ t, t ∈ timers (initialize w).1 ∧
          callback t = CheckUnavailable ∧
          nth_run t 0 = now w + 120 ∧
          ∀ k, nth_run t (S k) = nth_run t k + n * 60).
Proof.
  assert (Hruns : ∀ cb n,
    let t := check_timer cb (now w) n in
    callback t = cb ∧ nth_run t 0 = now w + 120 ∧
    ∀ k, nth_run t (S k) = nth_run t k + n * 60).
  { intros cb n. unfold nth_run. simpl. repeat split; lia. }
  split.
  - intros d v n m Hargs Hv Hn Hm.
    exists (check_timer CheckBattery (now w) n). split; [|apply Hruns].
    apply (initialize_battery_timer w (VDict d)
             {| bat_interval_min := n; bat_min_level := m |} Hargs).
    by eapply battery_section_dict.
  - intros d v n Hargs Hd Hbattery Hv Hn.
    exists (check_timer CheckUnavailable (now w) n). split; [|apply Hruns].
    apply initialize_unavailable_timer; [done|..]; rewrite Hargs; simpl.
    + by apply py_truthy_dict.
    + by eapply unavailable_section_dict.
Qed.

(** C6.  A run of either check changes nothing but the log and, by at
    most one call of the configured notify service, the list of service
    calls: arguments, [cfg], the state store, the clock and the timers are
    what they were. *)
Theorem checks_only_log_and_notify w :
  only_logs_and_notifies w (check_battery w).1 ∧
  only_logs_and_notifies w (check_unavailable w).1.
Proof.
  split.
  - destruct (battery_reports_low w) as (rep & (L & tail & C & -> & _ & _ & HC & _) & _).
    unfold only_logs_and_notifies. simpl. repeat split; [by eexists|].
    destruct HC as [->| ->]; [left; by rewrite app_nil_r|right; by eexists].
  - destruct (unavailable_reports_bad w)
      as (rep & (L & tail & C & -> & _ & _ & HC & _) & _).
    unfold only_logs_and_notifies. simpl. repeat split; [by eexists|].
    destruct HC as [->| ->]; [left; by rewrite app_nil_r|right; by eexists].
Qed.

(** C7.  In every run of either check the entities reported (the results
    of the scan, the per-entity log lines, the ids listed in the
    notification) have no duplicates and are in ascending order of their
    ids. *)
Theorem results_sorted_without_duplicates w :
  ((∀ w1 results, battery_scan w = (w1, inr results) →
                  NoDup results ∧ StronglySorted String.le results) ∧
   ∃ reported, battery_reports w reported ∧
               NoDup reported ∧ StronglySorted String.le reported) ∧
  ((∀ w1 results, unavailable_scan w = (w1, inr results) →
                  NoDup results ∧ StronglySorted String.le results) ∧
   ∃ reported, unavailable_reports w reported ∧
               NoDup reported ∧ StronglySorted String.le reported).
Proof.
  split.
  - destruct (battery_reports_low w) as (reported & Hrep & Hsub).
    apply sublist_of_candidates_sorted in Hsub. split; [|by exists reported].
    intros w1 results Hscan.
    destruct Hrep as (_ & _ & _ & _ & _ & _ & _ & Hresults).
    by rewrite (Hresults w1 results Hscan).
  - destruct (unavailable_reports_bad w) as (reported & Hrep & Hsub).
    apply sublist_of_candidates_sorted in Hsub. split; [|by exists reported].
    intros w1 results Hscan.
    destruct Hrep as (_ & _ & _ & _ & _ & _ & _ & Hresults).
    by rewrite (Hresults w1 results Hscan).
Qed.

(** C8.  An entity whose [battery_level] is 0, or missing, or otherwise
    falsy is not among the entities a run of the battery check reports,
    whatever [min_level] is. *)
Theorem falsy_level_never_reported w e :
  battery_level_of w e = VInt 0 ∨
  battery_level_of w e = VNone ∨
  py_truthy (battery_level_of w e) = false →
  ∃ reported, battery_reports w reported ∧ e ∉ reported.
Proof.
  intros Hlevel.
  assert (Hfalsy : py_truthy (battery_level_of w e) = false).
  { destruct Hlevel as [->|[->|?]]; done. }
  destruct (battery_reports_low w) as (reported & Hrep & Hsub).
  exists reported. split; [done|].
  eapply not_in_sublist_filter; [done|]. right.
  unfold is_low. by rewrite Hfalsy.
Qed.

(** C9.  Without a battery section in the arguments [initialize] does not
    complete: it raises, and what it raises is [NameError], from reading
    the unbound local [battery_cfg] at line 118, whenever the unavailable
    section and the exclude list did not raise before. *)
Theorem initialize_fails_without_battery w :
  args w !! "battery" = None →
  (∃ e, (initialize w).2 = inl e) ∧
  ((py_truthy (default VNone (args w !! "unavailable")) = true →
    ∃ n, unavailable_section (default VNone (args w !! "unavailable")) = inr n) →
   (∃ l, lowered_excludes (args w) = inr l) →
   (initialize w).2 = inl NameError).
Proof.
  intros Hargs. destruct (initialize_run w) as (wb & rb & Hb & Hrest).
  rewrite init_battery_run in Hb. simpl in Hb. rewrite Hargs in Hb.
  injection Hb as <- <-.
  destruct Hrest as (wu & ru & Hu & Hrest).
  pose proof (init_unavailable_frame _ _ _ Hu) as (Hau & _). simpl in Hau.
  rewrite init_unavailable_run in Hu. simpl in Hu.
  destruct ru as [e|[]].
  { rewrite Hrest. simpl. split; [by eexists|]. intros Hun _.
    destruct (py_truthy _); [|done].
    destruct Hun as [n Hn]; [done|]. by rewrite Hn in Hu. }
  destruct Hrest as (we & re & He & Hrest).
  rewrite init_exclude_run, Hau in He.
  destruct re as [e|[]].
  { rewrite Hrest. simpl. split; [by eexists|]. intros _ [l Hl].
    by rewrite Hl in He. }
  destruct Hrest as (L & ->). simpl. split; [by eexists|done].
Qed.
End Claims.

(** ** The claims on the demo host *)

(** C1, as stated, fails.  In [home] the scan completes with
    ["sensor.window"] alone: [sensor.door], not excluded and at 0 % with a
    [min_level] of 20, is not reported.  In [home_with_text] the scan
    raises [TypeError] at the level "low" of [sensor.a], so that
    [sensor.b], at 5 %, is never looked at. *)
Lemma threshold_only_fails :
  ¬ threshold_only (H := demo_host) home ∧
  ¬ threshold_only (H := demo_host) home_with_text.
Proof.
  split.
  - intros (w1 & results & Hscan & Hiff).
    assert (Hres : (battery_scan (H := demo_host) home).2 = inr ["sensor.window"])
      by (vm_compute; reflexivity).
    rewrite Hscan in Hres. injection Hres as ->.
    destruct (Hiff "sensor.door" {| bat_interval_min := 180; bat_min_level := 20 |})
      as [_ Hback].
    { vm_compute. by eexists. }
    { vm_compute. reflexivity. }
    assert (Hin : "sensor.door" ∈ ["sensor.window"]).
    { apply Hback. split; [|vm_compute; reflexivity].
      intros (x & Hx & Hin).
      assert (Hcfg : cfg_exclude (cfg home) =
                Some ["binary_sensor.always_unavailable"; "binary_sensor.updater";
                      "persistent_notification.config_entry_discovery";
                      "sensor.out_of_order"]) by (vm_compute; reflexivity).
      rewrite Hcfg in Hx. injection Hx as <-.
      refine (proj1 (bool_decide_eq_false _) _ Hin). vm_compute. reflexivity. }
    apply list_elem_of_singleton in Hin. discriminate.
  - intros (w1 & results & Hscan & _).
    assert (Hres : (battery_scan (H := demo_host) home_with_text).2 = inl TypeError)
      by (vm_compute; reflexivity).
    rewrite Hscan in Hres. discriminate.
Qed.

(** [battery_results_exact] in [home]: every level there is an int or
    absent. *)
Lemma battery_results_exact_witness :
  ∃ w1 results L,
    battery_scan (H := demo_host) home = (w1, inr results) ∧
    (∀ e, e ∈ results ↔
       is_Some (states home !! e) ∧ ¬ excluded (H := demo_host) home e ∧
       py_truthy (battery_level_of home e) = true ∧
       ∃ bat, cfg_battery (cfg home) = Some bat ∧
              py_le_int (battery_level_of home e) (bat_min_level bat) = inr true) ∧
    w1 = emit (battery_header :: L) [] home ∧
    Forall2 (battery_logged (H := demo_host) home) results L.
Proof.
  apply (battery_results_exact (H := demo_host) home).
  - vm_compute. by eexists.
  - vm_compute. by eexists.
  - refine (proj1 (bool_decide_eq_true _) _). vm_compute. reflexivity.
Defined.

(** [unavailable_results_exact] in [home]. *)
Lemma unavailable_results_exact_witness :
  ∃ w1 results L,
    unavailable_scan (H := demo_host) home = (w1, inr results) ∧
    (∀ e, e ∈ results ↔
       ¬ excluded (H := demo_host) home e ∧
       ∃ st, states home !! e = Some st ∧ state st ∈ BAD_STATES) ∧
    w1 = emit (unavailable_header :: L) [] home ∧
    Forall2 (unavailable_logged (H := demo_host) home) results L.
Proof.
  apply (unavailable_results_exact (H := demo_host) home).
  vm_compute. by eexists.
Defined.

(** [notification_iff_configured_and_flagged] in [home]: one call of
    [notify/me] by the battery check. *)
Lemma notification_iff_configured_and_flagged_witness :
  ∃ C, calls (check_battery (H := demo_host) home).1 = calls home ++ C ∧
       C = [{| service := "notify/me";
               message := "🔋 Battery low (1): sensor.window" |}].
Proof.
  assert (Hscan : battery_scan (H := demo_host) home =
                    ((battery_scan (H := demo_host) home).1, inr ["sensor.window"]))
    by (vm_compute; reflexivity).
  destruct (proj1 (notification_iff_configured_and_flagged (H := demo_host) home))
    as (C & Hcalls & Hiff & Hshape).
  exists C. split; [exact Hcalls|].
  destruct (Hshape _ _ Hscan) as [Hnone|Hone].
  - exfalso. refine (proj2 Hiff _ Hnone). split; [vm_compute; reflexivity|].
    eexists _, _. split; [exact Hscan|discriminate].
  - rewrite Hone. vm_compute. reflexivity.
Defined.

(** [excluded_never_reported] for the documented arguments: the sensor
    [Sensor.Out_of_order] is excluded through its lowercased id. *)
Lemma excluded_never_reported_witness :
  (∃ reported, battery_reports (H := demo_host) home reported ∧
               "Sensor.Out_of_order" ∉ reported) ∧
  (∃ reported, unavailable_reports (H := demo_host) home reported ∧
               "Sensor.Out_of_order" ∉ reported).
Proof.
  refine (proj2 (excluded_never_reported (H := demo_host)
                   (fresh_world documented_args house) home
                   (initialize (H := demo_host) (fresh_world documented_args house)).2
                   ["sensor.out_of_order"; "binary_sensor.always_unavailable"] _ _)
                home "Sensor.Out_of_order" eq_refl _).
  - apply surjective_pairing.
  - left. vm_compute. reflexivity.
  - right. refine (proj1 (bool_decide_eq_true _) _). vm_compute. reflexivity.
Defined.

(** [checks_scheduled] for the legacy keys: 3 hours and 2 hours. *)
Lemma checks_scheduled_witness :
  (∃ t, t ∈ timers (initialize (H := demo_host) (fresh_world args_legacy house)).1 ∧
        callback t = CheckBattery ∧ nth_run t 0 = 1120 ∧
        ∀ k, nth_run t (S k) = nth_run t k + 180 * 60) ∧
  (∃ t, t ∈ timers (initialize (H := demo_host) (fresh_world args_legacy house)).1 ∧
        callback t = CheckUnavailable ∧ nth_run t 0 = 1120 ∧
        ∀ k, nth_run t (S k) = nth_run t k + 120 * 60).
Proof.
  pose proof (checks_scheduled (H := demo_host) (fresh_world args_legacy house))
    as [Hbattery Hunavailable].
  split.
  - apply (Hbattery (list_to_map [("interval", VInt 3)]) (VInt 180) 180 20);
      vm_compute; reflexivity.
  - apply (Hunavailable (list_to_map [("interval", VInt 2)]) (VInt 120) 120).
    + vm_compute. reflexivity.
    + intros Hempty. apply (f_equal (λ d, d !! "interval")) in Hempty.
      vm_compute in Hempty. discriminate.
    + intros battery_cfg Hcfg. vm_compute in Hcfg. injection Hcfg as <-.
      exists {| bat_interval_min := 180; bat_min_level := 20 |}.
      vm_compute. reflexivity.
    + vm_compute. reflexivity.
    + vm_compute. reflexivity.
Defined.

(** [results_sorted_without_duplicates] in [home], for the unavailable
    check. *)
Lemma results_sorted_without_duplicates_witness :
  NoDup ["light.a"; "sensor.window"] ∧
  StronglySorted String.le ["light.a"; "sensor.window"].
Proof.
  assert (Hscan : unavailable_scan (H := demo_host) home =
                    ((unavailable_scan (H := demo_host) home).1,
                     inr ["light.a"; "sensor.window"]))
    by (vm_compute; reflexivity).
  exact (proj1 (proj2 (results_sorted_without_duplicates (H := demo_host) home))
               _ _ Hscan).
Defined.

(** [falsy_level_never_reported] in [home]: the door sensor is at 0, which
    is at most the [min_level] of 20. *)
Lemma falsy_level_never_reported_witness :
  battery_level_of home "sensor.door" = VInt 0 ∧
  py_le_int (VInt 0) 20 = inr true ∧
  ∃ reported, battery_reports (H := demo_host) home reported ∧
              "sensor.door" ∉ reported.
Proof.
  assert (Hlevel : battery_level_of home "sensor.door" = VInt 0)
    by (vm_compute; reflexivity).
  split; [exact Hlevel|]. split; [reflexivity|].
  apply (falsy_level_never_reported (H := demo_host)). left. exact Hlevel.
Defined.

(** [initialize_fails_without_battery] for the documented arguments less
    their battery section. *)
Lemma initialize_fails_without_battery_witness :
  args (fresh_world args_without_battery house) !! "battery" = None ∧
  (initialize (H := demo_host) (fresh_world args_without_battery house)).2
  = inl NameError.
Proof.
  assert (Hargs : args (fresh_world args_without_battery house) !! "battery" = None)
    by (vm_compute; reflexivity).
  split; [exact Hargs|].
  apply (proj2 (initialize_fails_without_battery (H := demo_host) _ Hargs)).
  - intros _. exists 60. vm_compute. reflexivity.
  - exists ["sensor.out_of_order"; "binary_sensor.always_unavailable"].
    vm_compute. reflexivity.
Defined.

(** * More of the code

    ** The checks in closed form *)

Section More.
Context `{Host}.

Lemma battery_body_outcome e rs w :
  battery_body e rs w =
    match battery_outcome w e with
    | inl ex => (w, inl ex)
    | inr None => (w, inr rs)
    | inr (Some l) => (emit [l] [] w, inr (rs ++ [e]))
    end.
Proof.
  unfold battery_body, battery_outcome, battery_level_of.
  rewrite bind_run. unfold get_state_all.
  destruct (states w !! e) as [st|] eqn:Hst; [|done]. simpl.
  rewrite bind_run. unfold mret at 1, M_ret at 1.
  set (level := default VNone (attributes st !! "battery_level")).
  rewrite bind_run.
  destruct (py_truthy level); [|done].
  rewrite bind_run. unfold cfg_key.
  destruct (cfg_battery (cfg w)) as [bat|]; [|done].
  unfold lift at 1. rewrite res_bind_run.
  destruct (py_le_int level (bat_min_level bat)) as [ex|[|]]; [done| |done].
  rewrite bind_run, _name_run, bind_run. unfold lift at 1. rewrite res_bind_run.
  destruct (py_int level) as [ex|n]; [done|].
  rewrite bind_run, (last_update_run e w st Hst), bind_run.
  unfold lift at 1. by rewrite icon_of_battery, bind_run, adu_log_run.
Qed.

Lemma battery_trace_emit L C w es rs :
  battery_trace (emit L C w) es rs = battery_trace w es rs.
Proof.
  revert rs. induction es as [|e es IH]; intros rs; [done|]. simpl.
  change (battery_outcome (emit L C w) e) with (battery_outcome w e).
  destruct (battery_outcome w e) as [ex|[l|]]; by rewrite ?IH.
Qed.

Lemma unavailable_trace_emit L C w es rs :
  unavailable_trace (emit L C w) es rs = unavailable_trace w es rs.
Proof.
  revert rs. induction es as [|e es IH]; intros rs; [done|]. simpl.
  change (unavailable_outcome (emit L C w) e rs) with (unavailable_outcome w e rs).
  destruct (unavailable_outcome w e rs) as [ex|[l|]]; by rewrite ?IH.
Qed.

Lemma battery_loop_trace es rs w :
  battery_loop es rs w =
    (emit (battery_trace w es rs).1 [] w, (battery_trace w es rs).2).
Proof.
  revert rs w. induction es as [|e es IH]; intros rs w; simpl.
  { by rewrite emit_nil. }
  rewrite bind_run, battery_body_outcome.
  destruct (battery_outcome w e) as [ex|[l|]]; simpl.
  - by rewrite emit_nil.
  - rewrite IH, emit_emit.
    rewrite battery_trace_emit.
    by destruct (battery_trace w es (rs ++ [e])).
  - apply IH.
Qed.

Lemma unavailable_body_outcome e rs w :
  unavailable_body e rs w =
    match unavailable_outcome w e rs with
    | inl ex => (w, inl ex)
    | inr None => (w, inr rs)
    | inr (Some l) => (emit [l] [] w, inr (rs ++ [e]))
    end.
Proof.
  unfold unavailable_body, unavailable_outcome.
  rewrite bind_run. unfold get_state_all.
  destruct (states w !! e) as [st|] eqn:Hst; [|done]. simpl.
  rewrite bind_run. unfold mret at 1, M_ret at 1.
  destruct (bool_decide (state st ∈ BAD_STATES) && bool_decide (e ∉ rs)); [|done].
  rewrite bind_run, _name_run, bind_run, (last_update_run e w st Hst), bind_run.
  unfold lift at 1. rewrite res_bind_run.
  destruct (icon_of (state st)) as [ex|icon]; [done|].
  by rewrite bind_run, adu_log_run.
Qed.

Lemma unavailable_loop_trace es rs w :
  unavailable_loop es rs w =
    (emit (unavailable_trace w es rs).1 [] w, (unavailable_trace w es rs).2).
Proof.
  revert rs w. induction es as [|e es IH]; intros rs w; simpl.
  { by rewrite emit_nil. }
  rewrite bind_run, unavailable_body_outcome.
  destruct (unavailable_outcome w e rs) as [ex|[l|]]; simpl.
  - by rewrite emit_nil.
  - rewrite IH, emit_emit.
    rewrite unavailable_trace_emit.
    by destruct (unavailable_trace w es (rs ++ [e])).
  - apply IH.
Qed.

Lemma sorted_entities_outcome w : sorted_entities w = (w, entities_outcome w).
Proof. apply sorted_entities_run. Qed.

Lemma entities_outcome_inr w es : entities_outcome w = inr es → es = candidates w.
Proof.
  unfold entities_outcome.
  destruct (cfg_exclude (cfg w)), ((map_to_list (states w)).*1); congruence.
Qed.

Lemma battery_scan_closed w :
  battery_scan w =
    match entities_outcome w with
    | inl ex => (emit [battery_header] [] w, inl ex)
    | inr _ =>
        (emit (battery_header :: (battery_trace w (candidates w) []).1) [] w,
         (battery_trace w (candidates w) []).2)
    end.
Proof.
  unfold battery_scan.
  rewrite bind_run, adu_log_run, bind_run, sorted_entities_outcome.
  change (entities_outcome (emit _ _ w)) with (entities_outcome w).
  destruct (entities_outcome w) as [ex|es] eqn:Hes; [done|].
  apply entities_outcome_inr in Hes as ->.
  rewrite battery_loop_trace, emit_emit.
  change (candidates (emit _ _ w)) with (candidates w).
  by rewrite battery_trace_emit.
Qed.

Lemma unavailable_scan_closed w :
  unavailable_scan w =
    match entities_outcome w with
    | inl ex => (emit [unavailable_header] [] w, inl ex)
    | inr _ =>
        (emit (unavailable_header :: (unavailable_trace w (candidates w) []).1) [] w,
         (unavailable_trace w (candidates w) []).2)
    end.
Proof.
  unfold unavailable_scan.
  rewrite bind_run, adu_log_run, bind_run, sorted_entities_outcome.
  change (entities_outcome (emit _ _ w)) with (entities_outcome w).
  destruct (entities_outcome w) as [ex|es] eqn:Hes; [done|].
  apply entities_outcome_inr in Hes as ->.
  rewrite unavailable_loop_trace, emit_emit.
  change (candidates (emit _ _ w)) with (candidates w).
  by rewrite unavailable_trace_emit.
Qed.

Lemma check_battery_closed w :
  check_battery w = (emit (battery_run w).1.1 (battery_run w).1.2 w, (battery_run w).2).
Proof.
  pose proof (battery_scan_closed w) as Hscan.
  unfold battery_run, run_of.
  destruct (entities_outcome w) as [ex|es].
  { by rewrite (check_battery_run w _ _ Hscan). }
  destruct (battery_trace w (candidates w) []) as [L [ex|results]];
    rewrite (check_battery_run w _ _ Hscan); simpl; [done|].
  by rewrite emit_emit.
Qed.

Lemma check_unavailable_closed w :
  check_unavailable w =
    (emit (unavailable_run w).1.1 (unavailable_run w).1.2 w, (unavailable_run w).2).
Proof.
  pose proof (unavailable_scan_closed w) as Hscan.
  unfold unavailable_run, run_of.
  destruct (entities_outcome w) as [ex|es].
  { by rewrite (check_unavailable_run w _ _ Hscan). }
  destruct (unavailable_trace w (candidates w) []) as [L [ex|results]];
    rewrite (check_unavailable_run w _ _ Hscan); simpl; [done|].
  by rewrite emit_emit.
Qed.

Lemma battery_run_emit L C w : battery_run (emit L C w) = battery_run w.
Proof.
  unfold battery_run.
  change (candidates (emit L C w)) with (candidates w).
  change (entities_outcome (emit L C w)) with (entities_outcome w).
  by rewrite battery_trace_emit.
Qed.

Lemma unavailable_run_emit L C w : unavailable_run (emit L C w) = unavailable_run w.
Proof.
  unfold unavailable_run.
  change (candidates (emit L C w)) with (candidates w).
  change (entities_outcome (emit L C w)) with (entities_outcome w).
  by rewrite unavailable_trace_emit.
Qed.


(** X1.  A check keeps no memory between runs: run again from the world
    it left, with the same store and [cfg], it logs the same lines and
    sends the same notification once more, and ends the same way. *)
Theorem check_keeps_no_memory w :
  (∃ L C r,
     check_battery w = (emit L C w, r) ∧
     check_battery (emit L C w) = (emit (L ++ L) (C ++ C) w, r)) ∧
  (∃ L C r,
     check_unavailable w = (emit L C w, r) ∧
     check_unavailable (emit L C w) = (emit (L ++ L) (C ++ C) w, r)).
Proof.
  split.
  - eexists _, _, _. split; [apply check_battery_closed|].
    by rewrite check_battery_closed, battery_run_emit, emit_emit.
  - eexists _, _, _. split; [apply check_unavailable_closed|].
    by rewrite check_unavailable_closed, unavailable_run_emit, emit_emit.
Qed.

Lemma candidates_empty w : states w = ∅ → candidates w = [].
Proof.
  intros Hempty. unfold candidates. rewrite Hempty, map_to_list_empty.
  by destruct (cfg_exclude (cfg w)).
Qed.

Lemma entities_outcome_empty w : states w = ∅ → entities_outcome w = inr [].
Proof.
  intros Hempty. unfold entities_outcome.
  rewrite (candidates_empty w Hempty), Hempty, map_to_list_empty.
  by destruct (cfg_exclude (cfg w)).
Qed.

(** X2.  On an empty state store either check of an app whose [cfg] has
    its exclude list completes, with or without a battery section and a
    notify target: it logs its header and "no entities with ... found", and
    calls no service. *)
Theorem empty_store_reports_nothing w :
  is_Some (cfg_exclude (cfg w)) →
  states w = ∅ →
  check_battery w =
    (emit [battery_header;
           {| log_msg := "no entities with low battery levels found";
              log_icon := APP_ICON |}] [] w, inr ()) ∧
  check_unavailable w =
    (emit [unavailable_header;
           {| log_msg := "no entities with unavailable/unknown state found";
              log_icon := APP_ICON |}] [] w, inr ()).
Proof.
  intros _ Hempty. rewrite check_battery_closed, check_unavailable_closed.
  unfold battery_run, unavailable_run, run_of.
  rewrite (entities_outcome_empty w Hempty), (candidates_empty w Hempty). simpl.
  unfold notification. by rewrite andb_false_r.
Qed.

Lemma battery_trace_completes_iff w es rs :
  (∃ out, (battery_trace w es rs).2 = inr out) ↔
  Forall (λ e, ∃ o, battery_outcome w e = inr o) es.
Proof.
  revert rs. induction es as [|e es IH]; intros rs; simpl.
  { split; [constructor|by eexists]. }
  rewrite Forall_cons.
  destruct (battery_outcome w e) as [ex|[l|]]; simpl.
  - split; [by intros [? ?]|by intros [[? ?] _]].
  - rewrite <- (IH (rs ++ [e])).
    destruct (battery_trace w es (rs ++ [e])) as [L r]. simpl.
    split; [by eauto|by intros [_ ?]].
  - rewrite <- (IH rs). split; [by eauto|by intros [_ ?]].
Qed.

Lemma battery_outcome_completes_iff w e bat :
  cfg_battery (cfg w) = Some bat →
  (∃ o, battery_outcome w e = inr o) ↔
  is_Some (states w !! e) ∧ comparable_level (battery_level_of w e) = true.
Proof.
  intros Hbat. unfold battery_outcome, comparable_level. rewrite Hbat.
  destruct (states w !! e) as [st|] eqn:Hst.
  2: { split; [by intros [? ?]|by intros [[? ?] _]]. }
  destruct (py_truthy (battery_level_of w e)) eqn:Htruthy; simpl.
  2: { split; [by eauto|by eexists]. }
  rewrite res_bind_run.
  destruct (battery_level_of w e) as [|b|n|f|s|l|d]; simpl;
    try (split; [by intros [? ?]|by intros [_ ?]]).
  - destruct (Z.b2z b <=? bat_min_level bat); split; by eauto.
  - destruct (n <=? bat_min_level bat); split; by eauto.
  - destruct f as [z|[|]|  |s p e']; simpl in *.
    + done.
    + split; [by intros [? ?]|by intros [_ ?]].
    + split; [by eauto|by eexists].
    + split; [by eauto|by eexists].
    + destruct (if 0 <=? e' then _ else _); split; by eauto.
Qed.

Lemma battery_outcome_no_section w e :
  cfg_battery (cfg w) = None →
  (∃ o, battery_outcome w e = inr o) ↔
  is_Some (states w !! e) ∧ py_truthy (battery_level_of w e) = false.
Proof.
  intros Hbat. unfold battery_outcome. rewrite Hbat.
  destruct (states w !! e) as [st|] eqn:Hst.
  2: { split; [by intros [? ?]|by intros [[? ?] _]]. }
  destruct (py_truthy (battery_level_of w e)).
  - split; [by intros [? ?]|by intros [_ ?]].
  - split; [by eauto|by eexists].
Qed.

Lemma battery_scan_completes_trace w :
  (∃ w1 results, battery_scan w = (w1, inr results)) ↔
  (∃ es, entities_outcome w = inr es) ∧
  Forall (λ e, ∃ o, battery_outcome w e = inr o) (candidates w).
Proof.
  rewrite battery_scan_closed, <- (battery_trace_completes_iff w _ []).
  destruct (entities_outcome w) as [ex|es].
  - split; [by intros (? & ? & ?)|by intros [[? ?] _]].
  - split.
    + intros (? & results & [= _ Hr]). eauto.
    + intros [_ [out Hout]]. eexists _, out. by rewrite Hout.
Qed.

(** X4.  Under a [cfg] with its exclude list, the scan of the battery
    check completes exactly when every entity it goes through has a level
    that is falsy or a number other than [-inf]; and, should [cfg] lack its
    battery section, exactly when every such level is falsy. *)
Theorem battery_scan_completes_iff w :
  is_Some (cfg_exclude (cfg w)) →
  ((∃ w1 results, battery_scan w = (w1, inr results)) ↔
   Forall (λ e, match cfg_battery (cfg w) with
                | Some _ => comparable_level (battery_level_of w e) = true
                | None => py_truthy (battery_level_of w e) = false
                end)
          (candidates w)).
Proof.
  intros [x Hx]. rewrite battery_scan_completes_trace.
  assert (Hes : ∃ es, entities_outcome w = inr es).
  { unfold entities_outcome. rewrite Hx. by eexists. }
  assert (Hstore : ∀ e, e ∈ candidates w → is_Some (states w !! e)).
  { intros e He. apply elem_of_candidates in He as [? _]; [done|left; eauto]. }
  rewrite !Forall_forall. split.
  - intros [_ Hall] e He. specialize (Hall e He).
    destruct (cfg_battery (cfg w)) as [bat|] eqn:Hbat.
    + by apply (battery_outcome_completes_iff w e bat Hbat) in Hall as [_ ?].
    + by apply (battery_outcome_no_section w e Hbat) in Hall as [_ ?].
  - intros Hall. split; [done|]. intros e He. specialize (Hall e He).
    destruct (cfg_battery (cfg w)) as [bat|] eqn:Hbat.
    + apply (battery_outcome_completes_iff w e bat Hbat). auto.
    + apply (battery_outcome_no_section w e Hbat). auto.
Qed.
(** *** Raising [min_level] *)

Lemma float_le_int_mono f m m' :
  m ≤ m' → float_le_int f m = true → float_le_int f m' = true.
Proof.
  intros Hm. destruct f as [z|s| |s p e]; simpl; [|done|done|].
  - rewrite !Z.leb_le. lia.
  - destruct (0 <=? e); rewrite !Z.leb_le; [lia|].
    intros Hle. etrans; [exact Hle|].
    apply Z.mul_le_mono_nonneg_r; [|done]. apply Z.pow_nonneg. lia.
Qed.

Lemma py_le_int_mono v m m' :
  m ≤ m' → py_le_int v m = inr true → py_le_int v m' = inr true.
Proof.
  intros Hm. destruct v as [|b|n|f|s|l|d]; simpl; try done; intros [= Hle]; f_equal.
  - apply Z.leb_le. apply Z.leb_le in Hle. lia.
  - apply Z.leb_le. apply Z.leb_le in Hle. lia.
  - by eapply float_le_int_mono.
Qed.

(** A level that is low for some threshold converts with [int()]. *)
Lemma low_somewhere_converts v m m' :
  py_le_int v m = inr false → py_le_int v m' = inr true →
  ∃ n, py_int v = inr n.
Proof.
  destruct v as [|b|n|f|s|l|d]; simpl; try done; try by eexists.
  destruct f as [z|s| |s p e]; simpl; try done; try by eexists.
  by intros [= ->] [= ?].
Qed.

Lemma with_min_level_exclude m w :
  cfg_exclude (cfg (with_min_level m w)) = cfg_exclude (cfg w).
Proof. unfold with_min_level. simpl. by destruct (cfg_battery (cfg w)). Qed.

Lemma with_min_level_candidates m w :
  candidates (with_min_level m w) = candidates w.
Proof. unfold candidates. by rewrite with_min_level_exclude. Qed.

Lemma with_min_level_entities m w :
  entities_outcome (with_min_level m w) = entities_outcome w.
Proof.
  unfold entities_outcome.
  by rewrite with_min_level_exclude, with_min_level_candidates.
Qed.

Lemma battery_outcome_mono m m' w e o :
  m ≤ m' →
  battery_outcome (with_min_level m w) e = inr o →
  ∃ o', battery_outcome (with_min_level m' w) e = inr o' ∧ (is_Some o → is_Some o').
Proof.
  intros Hm. unfold battery_outcome.
  change (states (with_min_level m w)) with (states w).
  change (states (with_min_level m' w)) with (states w).
  change (battery_level_of (with_min_level m w) e) with (battery_level_of w e).
  change (battery_level_of (with_min_level m' w) e) with (battery_level_of w e).
  destruct (states w !! e) as [st|]; [|done].
  destruct (py_truthy (battery_level_of w e)).
  2: { intros [= <-]. eexists. split; [reflexivity|]. by intros [? [=]]. }
  unfold with_min_level. simpl.
  destruct (cfg_battery (cfg w)) as [bat|] eqn:Hbat; simpl; [|by rewrite Hbat].
  destruct (py_le_int _ m) as [ex|[|]] eqn:Hle; [done|..].
  - rewrite (py_le_int_mono _ _ _ Hm Hle), !res_bind_run.
    destruct (py_int _) as [ex|n]; [done|]. intros _. eexists. split; [reflexivity|eauto].
  - intros [= <-]. destruct (py_le_int _ m') as [ex|[|]] eqn:Hle'.
    + by destruct (battery_level_of w e) as [| | |f| | |].
    + destruct (low_somewhere_converts _ _ _ Hle Hle') as [n ->].
      eexists. split; [reflexivity|]. by intros [? [=]].
    + eexists. split; [reflexivity|]. by intros [? [=]].
Qed.

Lemma battery_trace_mono m m' w es rs rs' out :
  m ≤ m' → rs ⊆ rs' →
  (battery_trace (with_min_level m w) es rs).2 = inr out →
  ∃ out', (battery_trace (with_min_level m' w) es rs').2 = inr out' ∧ out ⊆ out'.
Proof.
  intros Hm. revert rs rs'. induction es as [|e es IH]; intros rs rs' Hrs; simpl.
  { intros [= <-]. by exists rs'. }
  destruct (battery_outcome (with_min_level m w) e) as [ex|o] eqn:Ho; [done|].
  destruct (battery_outcome_mono m m' w e o Hm Ho) as (o' & -> & Hoo').
  destruct o as [l|].
  - destruct Hoo' as [l' ->]; [by eexists|].
    destruct (battery_trace (with_min_level m w) es (rs ++ [e])) as [L r] eqn:Ht.
    simpl. intros ->.
    destruct (IH (rs ++ [e]) (rs' ++ [e])) as (out' & Hout' & Hsub).
    { intros x. rewrite !elem_of_app. intros [?|?]; [left; by apply Hrs|by right]. }
    { by rewrite Ht. }
    destruct (battery_trace (with_min_level m' w) es (rs' ++ [e])) as [L' r'].
    simpl in *. eauto.
  - intros Hout. destruct o' as [l'|].
    + destruct (IH rs (rs' ++ [e])) as (out' & Hout' & Hsub); [|done|].
      { intros x ?. apply elem_of_app. left. by apply Hrs. }
      destruct (battery_trace (with_min_level m' w) es (rs' ++ [e])) as [L' r'].
      simpl in *. eauto.
    + by apply (IH rs rs').
Qed.

(** X5.  Raising [min_level] only adds to what the battery check finds:
    if the scan completes with some results, it completes under any larger
    [min_level], with results that hold all of them. *)
Theorem raising_min_level_adds m m' w w1 results :
  m ≤ m' →
  battery_scan (with_min_level m w) = (w1, inr results) →
  ∃ w1' results',
    battery_scan (with_min_level m' w) = (w1', inr results') ∧
    results ⊆ results'.
Proof.
  intros Hm. rewrite !battery_scan_closed, !with_min_level_entities,
    !with_min_level_candidates.
  destruct (entities_outcome w) as [ex|es]; [done|]. intros [= _ Hout].
  destruct (battery_trace_mono m m' w (candidates w) [] [] results Hm)
    as (results' & Hout' & Hsub); [done..|].
  eexists _, results'. by rewrite Hout'.
Qed.
(** *** The level a log line prints *)

Lemma float_int_le f m n :
  float_le_int f m = true → float_int f = inr n → n ≤ m.
Proof.
  destruct f as [z|s| |s p e]; simpl; try done.
  - intros Hle [= <-]. by apply Z.leb_le.
  - intros Hle [= <-]. destruct (0 <=? e) eqn:He; apply Z.leb_le in Hle; [done|].
    apply Z.leb_gt in He.
    assert (Hpow : 0 < 2 ^ (- e)) by (apply Z.pow_pos_nonneg; lia).
    destruct s; simpl in *.
    + change (Z.neg p) with (- Z.pos p) in *.
      rewrite Z.quot_opp_l, Z.quot_div_nonneg by lia.
      assert (- m ≤ Z.pos p `div` 2 ^ (- e)) as Hdiv; [|lia].
      apply Z.div_le_lower_bound; lia.
    + rewrite Z.quot_div_nonneg by lia.
      apply Z.div_le_upper_bound; lia.
Qed.

Lemma py_int_le v m n :
  py_le_int v m = inr true → py_int v = inr n → n ≤ m.
Proof.
  destruct v as [|b|k|f|s|l|d]; simpl; try done.
  - intros [= Hle] [= <-]. by apply Z.leb_le.
  - intros [= Hle] [= <-]. by apply Z.leb_le.
  - intros [= Hle]. by apply float_int_le.
Qed.

Lemma Forall2_impl_elem_of {A B} (P Q : A → B → Prop) l k :
  Forall2 P l k → (∀ x y, x ∈ l → P x y → Q x y) → Forall2 Q l k.
Proof.
  induction 1 as [|x y l k HP _ IH]; intros HPQ; constructor.
  - apply HPQ; [left|done].
  - apply IH. intros x' y' Hx'. apply HPQ. by right.
Qed.

(** X6.  The percentage printed in a low-battery log line is [int()] of
    the level, truncated toward zero, and never exceeds [min_level]. *)
Theorem logged_level_at_most_min_level w w1 results :
  battery_scan w = (w1, inr results) →
  ∃ L, w1 = emit (battery_header :: L) [] w ∧
       Forall2 (λ e l,
                  ∃ st bat n,
                    states w !! e = Some st ∧
                    cfg_battery (cfg w) = Some bat ∧
                    py_int (battery_level_of w e) = inr n ∧
                    n ≤ bat_min_level bat ∧
                    l = {| log_msg := battery_line (name_of w e) n
                                                   (last_update_of w st);
                           log_icon := "🔋" |})
               results L.
Proof.
  intros Hscan.
  destruct (battery_scan_results w w1 results Hscan) as (Hiff & L & Hw1 & Hlog).
  exists L. split; [done|].
  apply (Forall2_impl_elem_of _ _ _ _ Hlog).
  intros e l He (st & n & Hst & Hint & ->).
  apply Hiff in He as (_ & _ & _ & bat & Hbat & Hle).
  exists st, bat, n. repeat split; try done. by eapply py_int_le.
Qed.

(** *** The service name *)

Lemma replace_dot_length s : String.length (replace_dot s) = String.length s.
Proof. induction s as [|a s IH]; simpl; by rewrite ?IH. Qed.

(** X8.  The service name built from [cfg["notify"]] has no dot left, is
    as long as the configured name, and is that name itself when it had no
    dot. *)
Theorem replace_dot_leaves_no_dot s :
  has_char "."%char (replace_dot s) = false ∧
  String.length (replace_dot s) = String.length s ∧
  (has_char "."%char s = false → replace_dot s = s).
Proof.
  split; [|split; [apply replace_dot_length|]].
  - induction s as [|a s IH]; [done|]. simpl. rewrite IH, orb_false_r.
    destruct (Ascii.eqb a ".") eqn:Ha; [done|exact Ha].
  - induction s as [|a s IH]; [done|]. simpl.
    destruct (Ascii.eqb a "."); simpl; [done|]. intros Hs. by rewrite IH.
Qed.

(** *** [last_update] *)

(** X9.  [last_update] leaves the world alone; for an entity of the store
    it returns the local time of [last_updated], followed by the local date
    in brackets exactly when that date is not today; for an unknown entity
    [_to_localtime] raises [TypeError]. *)
Theorem last_update_appends_other_date e w :
  match states w !! e with
  | None => last_update e w = (w, inl TypeError)
  | Some st =>
      ∃ day time,
        local_date_time (last_updated st) = (day, time) ∧
        (day = date (now w) → last_update e w = (w, inr time)) ∧
        (day ≠ date (now w) →
         last_update e w = (w, inr (time +:+ " (" +:+ day +:+ ")")))
  end.
Proof.
  destruct (states w !! e) as [st|] eqn:Hst.
  - rewrite (last_update_run e w st Hst). unfold last_update_of.
    destruct (local_date_time (last_updated st)) as [day time].
    exists day, time. split; [done|].
    split; intros Hday; case_bool_decide; done.
  - unfold last_update, _to_localtime. rewrite !bind_run.
    unfold get_state_all. by rewrite Hst.
Qed.
(** *** Invariants of [initialize] *)

(** A property that holds when [cfg] is reset and is kept by every step
    holds of the world [initialize] leaves, however it ends; [P0] is what
    holds of the fresh [cfg], [P1] after the battery section, [P2] from the
    unavailable section on. *)
Lemma initialize_stages (P0 P1 P2 : World → Prop) w :
  P0 (world_with_cfg (cfg_init (args w)) w) →
  (∀ w', P0 w' → P1 (init_battery w').1) →
  (∀ w', P1 w' → P2 (init_unavailable w').1) →
  (∀ w', P2 w' → P2 (init_exclude w').1) →
  (∀ w' L, P2 w' → P2 (emit L [] (world_with_cfg (setdefault_units (cfg w')) w'))) →
  (∀ w', P1 w' → P2 w') →
  P2 (initialize w).1.
Proof.
  intros H0 Hb Hu He Hend H12.
  destruct (initialize_run w) as (wb & rb & Hrb & Hrest).
  assert (P1 wb) as Hwb by (specialize (Hb _ H0); by rewrite Hrb in Hb).
  destruct rb as [e|bc]; [rewrite Hrest; by apply H12|].
  destruct Hrest as (wu & ru & Hru & Hrest).
  assert (P2 wu) as Hwu by (specialize (Hu _ Hwb); by rewrite Hru in Hu).
  destruct ru as [e|[]]; [by rewrite Hrest|].
  destruct Hrest as (we & re & Hre & Hrest).
  assert (P2 we) as Hwe by (specialize (He _ Hwu); by rewrite Hre in He).
  destruct re as [e|[]]; [by rewrite Hrest|].
  destruct Hrest as (L & ->). by apply Hend.
Qed.

(** X10.  However it ends, [initialize] calls no service and leaves the
    arguments, the state store and the clock as they were: it only extends
    the log (and the timers, and builds [cfg]). *)
Theorem initialize_only_logs_and_schedules w :
  let w' := (initialize w).1 in
  args w' = args w ∧ states w' = states w ∧ now w' = now w ∧
  calls w' = calls w ∧ ∃ L, log w' = log w ++ L.
Proof.
  set (P w' := args w' = args w ∧ states w' = states w ∧ now w' = now w ∧
               calls w' = calls w ∧ ∃ L, log w' = log w ++ L).
  apply (initialize_stages P P P); unfold P; clear P.
  - repeat split; try done. exists []. by rewrite app_nil_r.
  - intros w' HP. rewrite init_battery_run.
    destruct (args w' !! "battery") as [bc|]; [|done].
    by destruct (battery_section bc).
  - intros w' HP. rewrite init_unavailable_run. simpl.
    destruct (py_truthy _); [|done]. by destruct (unavailable_section _).
  - intros w' HP. rewrite init_exclude_run. by destruct (lowered_excludes _).
  - intros w' L (? & ? & ? & Hcalls & L' & Hlog). simpl.
    rewrite app_nil_r, Hlog, <- app_assoc. eauto 10.
  - done.
Qed.

(** X11.  However [initialize] ends, the timers it registered are those
    of the sections it stored in [cfg]: at most one per check, the battery
    check first, each starting 120 seconds after the clock and repeating
    every 60 times the stored [interval_min] seconds. *)
Theorem timers_match_cfg w :
  timers (initialize w).1 =
    timers w ++ timers_of (now w) (cfg (initialize w).1).
Proof.
  set (P2 w' := now w' = now w ∧
                timers w' = timers w ++ timers_of (now w) (cfg w')).
  set (P1 w' := cfg_unavailable (cfg w') = None ∧ P2 w').
  set (P0 w' := cfg_battery (cfg w') = None ∧ P1 w').
  assert (P2 (initialize w).1) as [_ ?]; [|done].
  apply (initialize_stages P0 P1 P2); unfold P0, P1, P2; clear P0 P1 P2.
  - unfold timers_of. simpl. by rewrite app_nil_r.
  - intros w' (Hbat & Hun & Hnow & Htimers). rewrite init_battery_run.
    destruct (args w' !! "battery") as [bc|]; [|done].
    destruct (battery_section bc) as [e|b]; [done|]. simpl.
    split; [done|]. split; [done|].
    rewrite Htimers, Hnow. unfold timers_of. simpl.
    by rewrite Hbat, Hun, !app_nil_r.
  - intros w' (Hun & Hnow & Htimers). rewrite init_unavailable_run. simpl.
    destruct (py_truthy _); [|done].
    destruct (unavailable_section _) as [e|n]; [done|]. simpl.
    split; [done|]. rewrite Htimers, Hnow. unfold timers_of. simpl.
    by rewrite Hun, !app_nil_r, <- app_assoc.
  - intros w' HP. rewrite init_exclude_run. by destruct (lowered_excludes _).
  - done.
  - by intros w' [_ ?].
Qed.

(** X12.  However [initialize] ends, [cfg] holds the notify target as
    given ([None] when absent) and [show_friendly_name] by truthiness: true
    when the key is absent. *)
Theorem notify_and_friendly_name_stored w :
  cfg_notify (cfg (initialize w).1) = default VNone (args w !! "notify") ∧
  cfg_show_friendly_name (cfg (initialize w).1) =
    match args w !! "show_friendly_name" with
    | Some v => py_truthy v
    | None => true
    end.
Proof.
  set (P w' := cfg_notify (cfg w') = default VNone (args w !! "notify") ∧
               cfg_show_friendly_name (cfg w') =
                 match args w !! "show_friendly_name" with
                 | Some v => py_truthy v
                 | None => true
                 end).
  apply (initialize_stages P P P); unfold P; clear P.
  - simpl. by destruct (args w !! "show_friendly_name").
  - intros w' HP. rewrite init_battery_run.
    destruct (args w' !! "battery") as [bc|]; [|done].
    by destruct (battery_section bc).
  - intros w' HP. rewrite init_unavailable_run. simpl.
    destruct (py_truthy _); [|done]. by destruct (unavailable_section _).
  - intros w' HP. rewrite init_exclude_run. by destruct (lowered_excludes _).
  - done.
  - done.
Qed.
(** *** Which sections [initialize] accepts *)

Lemma battery_section_only_dict v b :
  battery_section v = inr b → ∃ d, v = VDict d.
Proof.
  unfold battery_section, select_interval.
  destruct v as [|?|?|?|s|l|d]; simpl; try done; [..|by eexists].
  - destruct (bool_decide _); simpl; [done|]. by destruct (bool_decide _).
  - destruct (existsb _ _); simpl; [done|]. by destruct (existsb _ _).
Qed.

Lemma battery_section_exception v :
  (∀ d, v ≠ VDict d) →
  battery_section v = inl TypeError ∨ battery_section v = inl AttributeError.
Proof.
  intros Hv. unfold battery_section, select_interval.
  destruct v as [|?|?|?|s|l|d]; simpl; auto.
  - destruct (bool_decide _); simpl; [auto|]. destruct (bool_decide _); auto.
  - destruct (existsb _ _); simpl; [auto|]. destruct (existsb _ _); auto.
  - by destruct (Hv d).
Qed.

Lemma warn_interval_closed battery_cfg w :
  warn_interval battery_cfg w =
    match battery_cfg with
    | None => (w, inl NameError)
    | Some bc =>
        match py_in "interval" bc with
        | inl e => (w, inl e)
        | inr true => (emit interval_warning [] w, inr ())
        | inr false => (w, inr ())
        end
    end.
Proof.
  unfold warn_interval. destruct battery_cfg as [bc|]; [|done].
  rewrite bind_run. unfold lift.
  destruct (py_in "interval" bc) as [e|[|]]; [done| |done].
  rewrite bind_run, adu_log_run, bind_run, adu_log_run, bind_run, adu_log_run.
  by rewrite adu_log_run, !emit_emit.
Qed.

(** [initialize] step by step, for the outcome of each step. *)
Lemma initialize_closed w :
  initialize w =
    let w0 := world_with_cfg (cfg_init (args w)) w in
    match init_battery w0 with
    | (wb, inl e) => (wb, inl e)
    | (wb, inr battery_cfg) =>
        match init_unavailable wb with
        | (wu, inl e) => (wu, inl e)
        | (wu, inr _) =>
            match init_exclude wu with
            | (we, inl e) => (we, inl e)
            | (we, inr _) =>
                let w3 := world_with_cfg (setdefault_units (cfg we)) we in
                warn_interval battery_cfg (emit (show_config (cfg w3)) [] w3)
            end
        end
    end.
Proof.
  unfold initialize. rewrite bind_run. unfold get_world.
  rewrite bind_run. unfold set_cfg.
  change ({| args := args w; cfg := cfg_init (args w); states := states w;
             now := now w; log := log w; calls := calls w; timers := timers w |})
    with (world_with_cfg (cfg_init (args w)) w).
  simpl. rewrite bind_run.
  destruct (init_battery _) as [wb [e|bc]]; [done|].
  rewrite bind_run. destruct (init_unavailable wb) as [wu [e|[]]]; [done|].
  rewrite bind_run. destruct (init_exclude wu) as [we [e|[]]]; [done|].
  by rewrite bind_run, modify_cfg_run, bind_run, adu_init_run.
Qed.

Local Arguments warn_interval : simpl never.
Local Arguments init_battery : simpl never.
Local Arguments init_unavailable : simpl never.
Local Arguments init_exclude : simpl never.

(** X13.  [initialize] completes exactly when the arguments have a
    battery section that converts, an unavailable section that is falsy or
    converts, and an exclude value that is absent or iterates over
    strings. *)
Theorem initialize_completes_iff w :
  (initialize w).2 = inr () ↔
  (∃ battery_cfg b, args w !! "battery" = Some battery_cfg ∧
                    battery_section battery_cfg = inr b) ∧
  (∃ un, unavailable_stored (args w) = inr un) ∧
  (∃ l, lowered_excludes (args w) = inr l).
Proof.
  rewrite initialize_closed. simpl. rewrite init_battery_run. simpl.
  unfold unavailable_stored.
  destruct (args w !! "battery") as [bc|] eqn:Hbc.
  2: { split; [|by intros [(? & ? & [=] & _) _]].
       rewrite init_unavailable_run. simpl.
       destruct (py_truthy _); [destruct (unavailable_section _)|]; simpl;
         try done; rewrite init_exclude_run; simpl;
         destruct (lowered_excludes _); simpl; try done;
         by rewrite warn_interval_closed. }
  destruct (battery_section bc) as [e|b] eqn:Hb.
  { split; [done|]. intros [(? & ? & [= <-] & Hb') _]. by rewrite Hb in Hb'. }
  destruct (battery_section_only_dict _ _ Hb) as [d ->].
  rewrite init_unavailable_run. simpl.
  destruct (py_truthy _).
  - destruct (unavailable_section _) as [e|n]; simpl.
    { split; [done|]. by intros (_ & [? ?] & _). }
    rewrite init_exclude_run. simpl.
    destruct (lowered_excludes _) as [e|l]; simpl.
    { split; [done|]. by intros (_ & _ & [? ?]). }
    rewrite warn_interval_closed. simpl.
    split; [intros _; eauto 10|]. intros _. by destruct (bool_decide _).
  - rewrite init_exclude_run. simpl.
    destruct (lowered_excludes _) as [e|l]; simpl.
    { split; [done|]. by intros (_ & _ & [? ?]). }
    rewrite warn_interval_closed. simpl.
    split; [intros _; eauto 10|]. intros _. by destruct (bool_decide _).
Qed.

(** X14.  When every section converts, [initialize] leaves exactly this:
    [cfg] with the notify target, [show_friendly_name], the battery and
    unavailable sections, the merged exclude list and the units; the timers
    of the stored sections; and in the log the configuration, followed by
    the four legacy warnings exactly when the battery section has the key
    [interval], also when [interval_min] is there and wins. *)
Theorem initialize_on_success w d b un l :
  args w !! "battery" = Some (VDict d) →
  battery_section (VDict d) = inr b →
  unavailable_stored (args w) = inr un →
  lowered_excludes (args w) = inr l →
  let c := {| cfg_notify := default VNone (args w !! "notify");
              cfg_show_friendly_name :=
                py_truthy (default (VBool true) (args w !! "show_friendly_name"));
              cfg_battery := Some b;
              cfg_unavailable := un;
              cfg_exclude := Some (merge_excluded l);
              cfg_units := Some [("interval", "h"); ("interval_min", "min");
                                 ("min_level", "%")] |} in
  initialize w =
    ({| args := args w; cfg := c; states := states w; now := now w;
        log := log w ++ show_config c ++
               (if bool_decide (is_Some (d !! "interval"))
                then interval_warning else []);
        calls := calls w;
        timers := timers w ++ timers_of (now w) c |}, inr ()).
Proof.
  intros Hbc Hb Hun Hl. rewrite initialize_closed. simpl.
  rewrite init_battery_run. simpl. rewrite Hbc, Hb.
  rewrite init_unavailable_run. simpl. unfold unavailable_stored in Hun.
  destruct (py_truthy (default VNone (args w !! "unavailable"))).
  - destruct (unavailable_section _) as [e|n]; [done|]. injection Hun as <-.
    rewrite init_exclude_run. simpl. rewrite Hl, warn_interval_closed. simpl.
    unfold timers_of. simpl.
    destruct (bool_decide (is_Some (d !! "interval"))); unfold emit; simpl;
      by rewrite ?app_nil_r, <- ?app_assoc.
  - injection Hun as <-.
    rewrite init_exclude_run. simpl. rewrite Hl, warn_interval_closed. simpl.
    unfold timers_of. simpl.
    destruct (bool_decide (is_Some (d !! "interval"))); unfold emit; simpl;
      by rewrite ?app_nil_r, <- ?app_assoc.
Qed.

(** *** Sections and lists that do not convert *)

(** X15.  A battery section that is not a dict (a scalar, a string, a
    list, or the [None] of an empty YAML section) makes [initialize] raise
    [TypeError] or [AttributeError] at once: no timer is registered, and
    [cfg] gets neither a battery section nor an exclude list. *)
Theorem battery_section_must_be_dict w v :
  args w !! "battery" = Some v → (∀ d, v ≠ VDict d) →
  ((initialize w).2 = inl TypeError ∨ (initialize w).2 = inl AttributeError) ∧
  timers (initialize w).1 = timers w ∧
  cfg_battery (cfg (initialize w).1) = None ∧
  cfg_exclude (cfg (initialize w).1) = None.
Proof.
  intros Hv Hdict. rewrite initialize_closed. simpl.
  rewrite init_battery_run. simpl. rewrite Hv.
  by destruct (battery_section_exception v Hdict) as [-> | ->]; auto.
Qed.

(** X16.  An unavailable section given as a non-empty string that does
    not mention [interval] enables the unavailable check at the default of
    60 minutes. *)
Theorem unavailable_enabled_by_text w s :
  (∀ battery_cfg, args w !! "battery" = Some battery_cfg →
                  ∃ b, battery_section battery_cfg = inr b) →
  args w !! "unavailable" = Some (VStr s) →
  s ≠ EmptyString →
  String.index 0 "interval" s = None →
  String.index 0 "interval_min" s = None →
  check_timer CheckUnavailable (now w) INTERVAL_UNAVAILABLE_MIN
    ∈ timers (initialize w).1.
Proof.
  intros Hbattery Hun Hs Hold Hmin.
  apply initialize_unavailable_timer; [done|..]; rewrite Hun; simpl.
  - destruct s; [done|]. reflexivity.
  - unfold unavailable_section, select_interval. simpl. by rewrite Hmin, Hold.
Qed.

(** X17.  When the sections convert and the exclude value does not
    iterate over strings (an [exclude:] key left empty, say), [initialize]
    raises that exception at line 104: after the timers of the stored
    sections were registered, before [cfg] gets its exclude list, and
    before anything is logged. *)
Theorem failed_exclude_list_keeps_timers w ex :
  (∀ battery_cfg, args w !! "battery" = Some battery_cfg →
                  ∃ b, battery_section battery_cfg = inr b) →
  (∃ un, unavailable_stored (args w) = inr un) →
  lowered_excludes (args w) = inl ex →
  (initialize w).2 = inl ex ∧
  cfg_exclude (cfg (initialize w).1) = None ∧
  log (initialize w).1 = log w ∧
  (∀ battery_cfg b,
     args w !! "battery" = Some battery_cfg →
     battery_section battery_cfg = inr b →
     check_timer CheckBattery (now w) (bat_interval_min b)
       ∈ timers (initialize w).1) ∧
  (∀ n, unavailable_stored (args w) = inr (Some n) →
        check_timer CheckUnavailable (now w) n ∈ timers (initialize w).1).
Proof.
  intros Hbattery [un Hun] Hex.
  assert (Hinit : (initialize w).2 = inl ex ∧
                  cfg_exclude (cfg (initialize w).1) = None ∧
                  log (initialize w).1 = log w).
  { rewrite initialize_closed. simpl. rewrite init_battery_run. simpl.
    unfold unavailable_stored in Hun.
    destruct (args w !! "battery") as [bc|] eqn:Hbc.
    - destruct (Hbattery bc eq_refl) as [b ->].
      rewrite init_unavailable_run. simpl.
      destruct (py_truthy _); [destruct (unavailable_section _); [done|]|];
        simpl; rewrite init_exclude_run; simpl; by rewrite Hex.
    - rewrite init_unavailable_run. simpl.
      destruct (py_truthy _); [destruct (unavailable_section _); [done|]|];
        simpl; rewrite init_exclude_run; simpl; by rewrite Hex. }
  destruct Hinit as (Hresult & Hnone & Hlog).
  split; [done|]. split; [done|]. split; [done|].
  split; [intros bc b; apply initialize_battery_timer|].
  intros n Hn. unfold unavailable_stored in Hn.
  destruct (py_truthy (default VNone (args w !! "unavailable"))) eqn:Htruthy;
    [|done].
  destruct (unavailable_section (default VNone (args w !! "unavailable")))
    as [e|n'] eqn:Hsection; [done|].
  injection Hn as ->. by apply initialize_unavailable_timer.
Qed.


(** *** The summary line *)

(** X7.  A run of either check that reaches the end of its scan
    completes, and logs one line per result between its header and one
    summary line: "no entities with ... found" for no result, the number of
    results in bold otherwise. *)
Theorem completed_run_log w :
  (∀ w1 results,
     battery_scan w = (w1, inr results) →
     ∃ L, length L = length results ∧
          (check_battery w).2 = inr () ∧
          log (check_battery w).1 =
            log w ++ battery_header :: L ++
              [{| log_msg :=
                    if bool_decide (results = [])
                    then "no entities with low battery levels found"
                    else hl (pretty (length results) +:+ " entities")
                         +:+ " with " +:+ hl "low battery levels" +:+ "!";
                  log_icon := APP_ICON |}]) ∧
  (∀ w1 results,
     unavailable_scan w = (w1, inr results) →
     ∃ L, length L = length results ∧
          (check_unavailable w).2 = inr () ∧
          log (check_unavailable w).1 =
            log w ++ unavailable_header :: L ++
              [{| log_msg :=
                    if bool_decide (results = [])
                    then "no entities with unavailable/unknown state found"
                    else hl (pretty (length results) +:+ " entities")
                         +:+ " with " +:+ hl "unavailable/unknown state" +:+ "!";
                  log_icon := APP_ICON |}]).
Proof.
  assert (Hsummary : ∀ reason results,
    summary reason results =
      {| log_msg := if bool_decide (results = [])
                    then "no entities with " +:+ reason +:+ " found"
                    else hl (pretty (length results) +:+ " entities")
                         +:+ " with " +:+ hl reason +:+ "!";
         log_icon := APP_ICON |}).
  { intros reason [|e results]; [done|]. unfold summary.
    rewrite bool_decide_eq_true_2 by (simpl; lia).
    by rewrite bool_decide_eq_false_2. }
  split; intros w1 results Hscan.
  - destruct (battery_scan_results w w1 results Hscan) as (_ & L & -> & Hlog).
    exists L. split; [symmetry; by eapply Forall2_length|].
    rewrite (check_battery_run w _ _ Hscan). simpl. split; [done|].
    by rewrite Hsummary, <- app_assoc.
  - destruct (unavailable_scan_results w w1 results Hscan) as (_ & L & -> & Hlog).
    exists L. split; [symmetry; by eapply Forall2_length|].
    rewrite (check_unavailable_run w _ _ Hscan). simpl. split; [done|].
    by rewrite Hsummary, <- app_assoc.
Qed.

(** *** The merged exclude list *)

(** X18.  The merged exclude list is sorted and free of duplicates, always
    holds the two built-in ids, and depends only on which ids are
    configured, not on their order or repetition. *)
Theorem merged_exclude_list l :
  NoDup (merge_excluded l) ∧
  StronglySorted String.le (merge_excluded l) ∧
  (∀ i, i ∈ EXCLUDE → i ∈ merge_excluded l) ∧
  (∀ l', (∀ i, i ∈ l ↔ i ∈ l') → merge_excluded l' = merge_excluded l).
Proof.
  split; [|split; [|split]].
  - unfold merge_excluded, sorted. rewrite merge_sort_Permutation.
    apply NoDup_elements.
  - unfold merge_excluded, sorted. apply StronglySorted_merge_sort; apply _.
  - intros i Hi. apply elem_of_merge_excluded. by left.
  - intros l' Hll'. unfold merge_excluded. do 3 f_equal.
    apply set_eq. intros i. rewrite !elem_of_list_to_set. by rewrite Hll'.
Qed.

End More.

(** ** The same on the demo host *)

Lemma empty_store_reports_nothing_witness :
  (check_battery (H := demo_host) empty_home).2 = inr () ∧
  (check_unavailable (H := demo_host) empty_home).2 = inr ().
Proof.
  assert (Hexclude : is_Some (cfg_exclude (cfg empty_home)))
    by (vm_compute; by eexists).
  assert (Hstore : states empty_home = ∅) by (vm_compute; reflexivity).
  destruct (empty_store_reports_nothing (H := demo_host) empty_home
              Hexclude Hstore) as [-> ->].
  split; reflexivity.
Defined.

Lemma battery_scan_completes_iff_witness :
  ∃ w1 results, battery_scan (H := demo_host) home = (w1, inr results).
Proof.
  apply (battery_scan_completes_iff (H := demo_host) home).
  - vm_compute. by eexists.
  - refine (proj1 (bool_decide_eq_true _) _). vm_compute. reflexivity.
Defined.

(** From a [min_level] of 10 to one of 20 in [home_two_levels]: the sensor
    at 5 % stays, the one at 15 % is added. *)
Lemma raising_min_level_adds_witness :
  (battery_scan (H := demo_host) (with_min_level 20 home_two_levels)).2
  = inr ["sensor.a"; "sensor.b"] ∧
  ∃ w1' results',
    battery_scan (H := demo_host) (with_min_level 20 home_two_levels)
    = (w1', inr results') ∧
    ["sensor.a"] ⊆ results'.
Proof.
  split; [vm_compute; reflexivity|].
  apply (raising_min_level_adds (H := demo_host) 10 20 home_two_levels
           (battery_scan (H := demo_host) (with_min_level 10 home_two_levels)).1
           ["sensor.a"]).
  - lia.
  - vm_compute. reflexivity.
Defined.

Lemma logged_level_at_most_min_level_witness :
  ∃ L, (battery_scan (H := demo_host) home).1 = emit (battery_header :: L) [] home ∧
       Forall2 (λ e l,
                  ∃ st bat n,
                    states home !! e = Some st ∧
                    cfg_battery (cfg home) = Some bat ∧
                    py_int (H := demo_host) (battery_level_of home e) = inr n ∧
                    n ≤ bat_min_level bat ∧
                    l = {| log_msg := battery_line (name_of (H := demo_host) home e) n
                                                   (last_update_of (H := demo_host) home st);
                           log_icon := "🔋" |})
               ["sensor.window"] L.
Proof.
  apply (logged_level_at_most_min_level (H := demo_host) home).
  vm_compute. reflexivity.
Defined.

Lemma completed_run_log_witness :
  ∃ L, length L = 1%nat ∧
       (check_battery (H := demo_host) home).2 = inr () ∧
       log (check_battery (H := demo_host) home).1 =
         log home ++ battery_header :: L ++
           [{| log_msg := hl "1 entities" +:+ " with " +:+ hl "low battery levels"
                          +:+ "!";
               log_icon := APP_ICON |}].
Proof.
  apply (proj1 (completed_run_log (H := demo_host) home)
               (battery_scan (H := demo_host) home).1 ["sensor.window"]).
  vm_compute. reflexivity.
Defined.

Lemma initialize_on_success_witness :
  (initialize (H := demo_host) (fresh_world args_legacy house)).2 = inr () ∧
  log (initialize (H := demo_host) (fresh_world args_legacy house)).1
  = interval_warning.
Proof.
  rewrite (initialize_on_success (H := demo_host) (fresh_world args_legacy house)
             (list_to_map [("interval", VInt 3)])
             {| bat_interval_min := 180; bat_min_level := 20 |} (Some 120) []).
  - split; reflexivity.
  - vm_compute. reflexivity.
  - vm_compute. reflexivity.
  - vm_compute. reflexivity.
  - vm_compute. reflexivity.
Defined.

Lemma battery_section_must_be_dict_witness :
  (initialize (H := demo_host) (fresh_world args_scalar_battery house)).2
  = inl TypeError ∧
  timers (initialize (H := demo_host) (fresh_world args_scalar_battery house)).1 = [].
Proof.
  destruct (battery_section_must_be_dict (H := demo_host)
              (fresh_world args_scalar_battery house) (VBool true))
    as ([Hresult|Hresult] & Htimers & _).
  - vm_compute. reflexivity.
  - discriminate.
  - split; [exact Hresult|exact Htimers].
  - exfalso. revert Hresult. vm_compute. discriminate.
Defined.

Lemma unavailable_enabled_by_text_witness :
  {| callback := CheckUnavailable; start := 1120; every := 3600 |}
    ∈ timers (initialize (H := demo_host)
                (fresh_world args_text_unavailable house)).1.
Proof.
  apply (unavailable_enabled_by_text (H := demo_host)
           (fresh_world args_text_unavailable house) "yes").
  - intros battery_cfg Hcfg. vm_compute in Hcfg. injection Hcfg as <-.
    exists {| bat_interval_min := 180; bat_min_level := 20 |}.
    vm_compute. reflexivity.
  - vm_compute. reflexivity.
  - discriminate.
  - reflexivity.
  - reflexivity.
Defined.

(** With [exclude:] left empty, [initialize] raises [TypeError] with both
    timers registered. *)
Lemma failed_exclude_list_keeps_timers_witness :
  (initialize (H := demo_host) (fresh_world args_null_exclude house)).2
  = inl TypeError ∧
  {| callback := CheckBattery; start := 1120; every := 10800 |}
    ∈ timers (initialize (H := demo_host) (fresh_world args_null_exclude house)).1 ∧
  {| callback := CheckUnavailable; start := 1120; every := 3600 |}
    ∈ timers (initialize (H := demo_host) (fresh_world args_null_exclude house)).1.
Proof.
  destruct (failed_exclude_list_keeps_timers (H := demo_host)
              (fresh_world args_null_exclude house) TypeError)
    as (Hresult & _ & _ & Hbattery & Hunavailable).
  - intros battery_cfg Hcfg. vm_compute in Hcfg. injection Hcfg as <-.
    exists {| bat_interval_min := 180; bat_min_level := 20 |}.
    vm_compute. reflexivity.
  - exists (Some 60). vm_compute. reflexivity.
  - vm_compute. reflexivity.
  - split; [exact Hresult|]. split.
    + apply (Hbattery (VDict (list_to_map [("interval_min", VInt 180);
                                           ("min_level", VInt 20)]))
                      {| bat_interval_min := 180; bat_min_level := 20 |});
        vm_compute; reflexivity.
    + apply (Hunavailable 60). vm_compute. reflexivity.
Defined.
